(** * Mails-Summariser: [alternative_summarizations.py]

    A shallow embedding of the summarisation front end of the repository
    (file [elite_ai_ml_bckend/alternative_summarizations.py]) and the
    properties its specification states about it.

    Python strings are modelled as [string] (the UTF-8 bytes of the text):
    the only string operations of the file (splitting at a dot, removing
    double quotes, joining with a space) act on ASCII bytes, which never
    occur inside a multi-byte UTF-8 sequence.  Python integers are [Z].  The
    file system is a finite map from paths to contents, threaded through a
    state and exception monad together with the console output and a journal
    of the file operations that were performed.  Opening, reading and
    writing an existing path always succeed; the only failure of the file
    system is the absence of a file opened for reading.

    The file is laid out in four parts:
    - the embedding of the source, function by function, over an interface
      of the third-party packages it calls, with a small executable instance
      of that interface;
    - module [Core], the scoring strategies as the specification describes
      them (the source delegates them to [sumy]);
    - the facts about both;
    - the claims of the specification, each with its number, and what they
      give on sample inputs. *)

From stdpp Require Import gmap strings list fin_maps pretty sorting.
From Stdlib Require Import ZArith QArith Qabs Lia Lqa Ascii String.

Open Scope string_scope.
Open Scope Z_scope.

(** ** Python values, exceptions and the world *)

(** Exceptions that the file can meet.  [FileNotFoundError] comes from
    [open(path, "r")], [ValueError] from [int(...)], [EOFError] from
    [input(...)]; everything raised inside a third-party package is
    [Foreign], tagged with the package's own class name. *)
Inductive exn : Type :=
| FileNotFoundError (path : string)
| ValueError (arg : string)
| EOFError
| Foreign (cls : string).

(** What [json.dumps] is given: the dictionary built by [createJSON]. *)
#[warnings="-register-all"]
Inductive pyval : Type :=
| PInt (n : Z)
| PStr (s : string)
| PDict (items : list (string * pyval)).

(** One entry of the journal per file operation and console operation. *)
Inductive event : Type :=
| EvRead (path : string)
| EvCreate (path : string)
| EvWrite (path : string) (data : string)
| EvPrint (line : string)
| EvInput (prompt : string).

Record world : Type := World {
  files : gmap string string;
  console : list string;
  keyboard : list string;
  journal : list event
}.

Inductive res (A : Type) : Type :=
| Ok (a : A)
| Raise (e : exn).
Arguments Ok {A} a.
Arguments Raise {A} e.

(** The monad of the embedding: a computation takes the world and returns a
    value or an exception, and the world it leaves behind (also when it
    raises: what was written before the exception stays written). *)
Definition M (A : Type) : Type := world -> res A * world.

Definition ret {A} (a : A) : M A := fun w => (Ok a, w).

Definition bind {A B} (c : M A) (k : A -> M B) : M B :=
  fun w => match c w with
           | (Ok a, w') => k a w'
           | (Raise e, w') => (Raise e, w')
           end.

Definition raise {A} (e : exn) : M A := fun w => (Raise e, w).

(** A library call that returns or raises, without touching the world. *)
Definition lift {A} (r : exn + A) : M A :=
  match r with
  | inr a => ret a
  | inl e => raise e
  end.

#[global] Instance M_ret : MRet M := @ret.
#[global] Instance M_bind : MBind M := fun A B k c => bind c k.

Definition log (e : event) (w : world) : world :=
  World (files w) (console w) (keyboard w) (journal w ++ [e]).

Definition set_files (fs : gmap string string) (w : world) : world :=
  World fs (console w) (keyboard w) (journal w).

(** *** Files

    [open(path, "r")] raises when the file is absent; [fh.read()] returns the
    whole contents; [open(path, "w")] creates or truncates the file at once;
    [fh.write(s)] appends to it; [fh.close()] does nothing that is visible
    here. *)
Inductive mode : Type := RD | WR.
Record handle : Type := Handle { h_path : string; h_mode : mode }.

Definition open (path : string) (m : mode) : M handle :=
  fun w =>
    match m with
    | RD => match files w !! path with
            | Some _ => (Ok (Handle path RD), w)
            | None => (Raise (FileNotFoundError path), w)
            end
    | WR => (Ok (Handle path WR),
             log (EvCreate path) (set_files (<[path := EmptyString]> (files w)) w))
    end.

Definition read (fh : handle) : M string :=
  fun w => (Ok (default EmptyString (files w !! h_path fh)), log (EvRead (h_path fh)) w).

Definition write (fh : handle) (data : string) : M unit :=
  fun w =>
    let old := default EmptyString (files w !! h_path fh) in
    (Ok tt, log (EvWrite (h_path fh) data)
              (set_files (<[h_path fh := old +:+ data]> (files w)) w)).

Definition close (fh : handle) : M unit := ret tt.

(** *** Console *)
Definition print (line : string) : M unit :=
  fun w => (Ok tt, log (EvPrint line)
                     (World (files w) (console w ++ [line]) (keyboard w) (journal w))).

(** ** String helpers of the Python standard library *)

(** [s.split(c)] for a one-character separator: never empty. *)
Fixpoint split_on (c : ascii) (s : string) : string * list string :=
  match s with
  | EmptyString => (EmptyString, [])
  | String a s' =>
      let '(p, ps) := split_on c s' in
      if Ascii.eqb a c then (EmptyString, p :: ps) else (String a p, ps)
  end.

Definition split (c : ascii) (s : string) : list string :=
  let '(p, ps) := split_on c s in p :: ps.

(** [re.sub(c, '', s)] for a pattern that is one literal character. *)
Fixpoint re_sub_del (c : ascii) (s : string) : string :=
  match s with
  | EmptyString => EmptyString
  | String a s' =>
      if Ascii.eqb a c then re_sub_del c s' else String a (re_sub_del c s')
  end.

(** [sep.join(l)] *)
Fixpoint join (sep : string) (l : list string) : string :=
  match l with
  | [] => EmptyString
  | [x] => x
  | x :: l' => x +:+ sep +:+ join sep l'
  end.

(** [l[:n]] with Python's rule for a negative bound: it counts from the end. *)
Definition slice_to {A} (l : list A) (n : Z) : list A :=
  if 0 <=? n then take (Z.to_nat n) l
  else take (Z.to_nat (Z.of_nat (List.length l) + n)) l.

Definition dot : ascii := "."%char.
Definition dquote : ascii := Ascii.ascii_of_nat 34.
Definition newline : string := String (Ascii.ascii_of_nat 10) EmptyString.

(** [sorted(l, key=...)] on integer keys.  Python's sort is stable: [x],
    which stood before every element of [l], stays before those of equal
    key. *)
Fixpoint insert_by_key {A} (key : A -> Z) (x : A) (l : list A) : list A :=
  match l with
  | [] => [x]
  | y :: l' => if key y <? key x then y :: insert_by_key key x l' else x :: l
  end.

Definition sorted_by_key {A} (key : A -> Z) (l : list A) : list A :=
  foldr (fun x acc => insert_by_key key x acc) [] l.

(** ** The third-party packages

    The file calls [sumy], [gensim], [pyteaser], [pytextrank], [json] and the
    builtin [int]; none of them belongs to the repository.  They enter the
    embedding as the fields of one interface.  A call returns a value or
    raises; a generator yields a finite list of items and may then raise. *)
Inductive algorithm : Type := Luhn | LSA | TextRank | LexRank | SumBasic | KL.

Definition gen (A : Type) : Type := (list A * option exn)%type.

Class Packages : Type := {
  (* builtins and json *)
  int : string -> exn + Z;
  json_dumps : pyval -> string;
  (* sumy *)
  tokenizer : Type;
  stemmer : Type;
  stop_words : Type;
  document : Type;
  sentence : Type;
  Tokenizer : string -> exn + tokenizer;
  Stemmer : string -> exn + stemmer;
  get_stop_words : string -> exn + stop_words;
  parse_document : string -> tokenizer -> exn + document;
  summarizer_call :
    algorithm -> stemmer -> option stop_words -> document -> Z -> exn + list sentence;
  str : sentence -> string;
  (* gensim *)
  ratio : Type;
  ratio_0_2 : ratio;
  summarize : string -> ratio -> exn + string;
  (* pyteaser *)
  teaser_sentence : Type;
  Summarize : string -> string -> exn + list teaser_sentence;
  teaser_str : teaser_sentence -> string;
  (* pytextrank *)
  graf : Type;
  ranks : Type;
  phrase : Type;
  kernel : Type;
  ranked_sentence : Type;
  sent_text : Type;
  parse_doc_json_iter : string -> gen graf;
  pretty_print_graf : graf -> string;
  text_rank : string -> exn + ranks;
  normalize_key_phrases : string -> ranks -> gen phrase;
  pretty_print_phrase : phrase -> string;
  rank_kernel : string -> exn + kernel;
  top_sentences : kernel -> string -> gen ranked_sentence;
  pretty_print_sentence : ranked_sentence -> string;
  limit_keyphrases : string -> Z -> gen string;
  limit_sentences : string -> Z -> gen (sent_text * Z);
  make_sentence : sent_text -> exn + string
}.

(** [for x in items: body(x)] *)
Fixpoint for_each {A} (items : list A) (body : A -> M unit) : M unit :=
  match items with
  | [] => mret tt
  | x :: rest => body x ;; for_each rest body
  end.

(** [for x in g: body(x)] where [g] is a generator. *)
Definition for_gen {A} (g : gen A) (body : A -> M unit) : M unit :=
  for_each (fst g) body ;;
  match snd g with
  | Some e => raise e
  | None => mret tt
  end.

(** [[x for x in g]] *)
Definition list_of_gen {A} (g : gen A) : M (list A) :=
  match snd g with
  | Some e => raise e
  | None => mret (fst g)
  end.

(** [[f(x) for x in l]] where [f] may raise. *)
Fixpoint map_M {A B} (f : A -> M B) (l : list A) : M (list B) :=
  match l with
  | [] => mret []
  | x :: rest => y ← f x; ys ← map_M f rest; mret (y :: ys)
  end.

(** A package function that is handed a path opens and reads the file itself. *)
Definition read_path (path : string) : M string :=
  fh ← open path RD; text ← read fh; close fh ;; mret text.

Section Source.
Context `{P : Packages}.

(** ** [sumySummarize] (lines 27 to 107)

    The defaults of the Python parameters ([language="english"],
    [num_sents=1]) are not modelled: every call of the file passes them.
    [getSummary] is a closure over [parser], [language] and [num_sents]; here
    it takes them as arguments. *)

Record parser : Type := Parser { p_text : string; p_tokenizer : tokenizer }.

(** [PlaintextParser.from_file(filename, tokenizer)] *)
Definition from_file (filename : string) (tok : tokenizer) : M parser :=
  text ← read_path filename; mret (Parser text tok).

(** [parser.document]: the text is cut into sentences when the document is
    asked for. *)
Definition parser_document (p : parser) : M document :=
  lift (parse_document (p_text p) (p_tokenizer p)).

(** A summarizer object: its class, its stemmer and its [stop_words]
    attribute, which is unset until [getSummary] assigns it. *)
Record summarizer : Type := Summarizer {
  s_class : algorithm;
  s_stemmer : stemmer;
  s_stop_words : option stop_words
}.

Definition new_summarizer (a : algorithm) (st : stemmer) : summarizer :=
  Summarizer a st None.

Definition getSummary (p : parser) (language : string) (num_sents : Z)
    (sumyAlgorithm : summarizer) : M (list string) :=
  sw ← lift (get_stop_words language);
  let sumyAlgorithm := Summarizer (s_class sumyAlgorithm) (s_stemmer sumyAlgorithm) (Some sw) in
  doc ← parser_document p;
  summary ← lift (summarizer_call (s_class sumyAlgorithm) (s_stemmer sumyAlgorithm)
                     (s_stop_words sumyAlgorithm) doc num_sents);
  let sents := map str summary in
  mret sents.

Definition sumySummarize (filename : string) (language : string) (num_sents : Z)
    : M (gmap string (list string)) :=
  tok ← lift (Tokenizer language);
  p ← from_file filename tok;
  st ← lift (Stemmer language);
  let summaries : gmap string (list string) := ∅ in
  r ← getSummary p language num_sents (new_summarizer Luhn st);
  let summaries := <["Luhn" := r]> summaries in
  r ← getSummary p language num_sents (new_summarizer LSA st);
  let summaries := <["LSA" := r]> summaries in
  r ← getSummary p language num_sents (new_summarizer TextRank st);
  let summaries := <["TextRank" := r]> summaries in
  r ← getSummary p language num_sents (new_summarizer LexRank st);
  let summaries := <["LexRank" := r]> summaries in
  r ← getSummary p language num_sents (new_summarizer SumBasic st);
  let summaries := <["SumBasic" := r]> summaries in
  r ← getSummary p language num_sents (new_summarizer KL st);
  let summaries := <["KL" := r]> summaries in
  mret summaries.

(** ** [gensimSummarize] (lines 110 to 126) *)

(** [fh = open(filename,"r"); text = fh.read(); fh.close()], then the
    package's [summarize]. *)
Definition gensimSummarize (filename : string) (coverage_fraction : ratio) : M string :=
  fh ← open filename RD;
  text ← read fh;
  close fh ;;
  summary ← lift (summarize text coverage_fraction);
  mret summary.

(** ** [pyteasSummarize] (lines 129 to 154) *)

(** Line 151 keeps [summary[:num_sents]] and joins the strings with a
    space. *)
Definition pyteasSummarize (filename : string) (title : string) (num_sents : Z) : M string :=
  fh ← open filename RD;
  text ← read fh;
  close fh ;;
  summary ← lift (Summarize title text);
  let sents := join " " (map teaser_str (slice_to summary num_sents)) in
  mret sents.

(** ** [createJSON] (lines 157 to 178) *)

(** Reads the file, removes the double quotes, builds the dictionary with
    [id] and [text], and writes its serialisation to the file named by
    [filename.split(".")[0] + ".json"]. *)
Definition createJSON (filename : string) : M string :=
  fh ← open filename RD;
  text ← read fh;
  close fh ;;
  let text := re_sub_del dquote text in
  let d := PDict [("id", PInt 707); ("text", PStr text)] in
  let jsonFile := hd EmptyString (split dot filename) +:+ ".json" in
  fh ← open jsonFile WR;
  write fh (json_dumps d) ;;
  close fh ;;
  mret jsonFile.

(** ** [pytrankSummarize] (lines 181 to 228) *)

(** The functions of [pytextrank] are handed paths and read the files
    themselves; the generators among them read when the loop asks for the
    first item, that is after the output file of the loop was opened.
    [text_rank] returns a graph and the ranks, and only the ranks are used;
    [phrases] is computed (line 219) and not used. *)
Definition pytrankSummarize (filename : string) : M string :=
  jsonText ← createJSON filename;
  let path_stage0 := jsonText in
  let path_stage1 := "o1.json" in
  f ← open path_stage1 WR;
  text0 ← read_path path_stage0;
  for_gen (parse_doc_json_iter text0)
    (fun g => write f (pretty_print_graf g +:+ newline)) ;;
  close f ;;
  let path_stage2 := "o2.json" in
  text1 ← read_path path_stage1;
  rk ← lift (text_rank text1);
  f ← open path_stage2 WR;
  text1 ← read_path path_stage1;
  for_gen (normalize_key_phrases text1 rk)
    (fun rl => write f (pretty_print_phrase rl +:+ newline)) ;;
  close f ;;
  let path_stage3 := "o3.json" in
  text2 ← read_path path_stage2;
  krn ← lift (rank_kernel text2);
  f ← open path_stage3 WR;
  text1 ← read_path path_stage1;
  for_gen (top_sentences krn text1)
    (fun s => write f (pretty_print_sentence s) ;; write f newline) ;;
  close f ;;
  text2 ← read_path path_stage2;
  phrases ← list_of_gen (limit_keyphrases text2 12);
  text3 ← read_path path_stage3;
  sents ← list_of_gen (limit_sentences text3 50);
  let sent_iter := sorted_by_key snd sents in
  s ← map_M (fun '(sent_text, idx) => lift (make_sentence sent_text)) sent_iter;
  let graf_text := join " " s in
  mret graf_text.

(** ** [getAlgorithmChoice] and the script body (lines 231 to 261) *)

(** [input(prompt)]: the prompt is shown, the next line typed is returned. *)
Definition input (prompt : string) : M string :=
  fun w =>
    match keyboard w with
    | line :: rest =>
        (Ok line, log (EvInput prompt) (World (files w) (console w) rest (journal w)))
    | [] => (Raise EOFError, log (EvInput prompt) w)
    end.

Definition getAlgorithmChoice : M Z :=
  print " " ;;
  print "Algorithm/library choices for summarization ... " ;;
  print "1. Sumy (all algorithms)" ;;
  print "2. Gensim" ;;
  print "3. PyTeaser" ;;
  print "4. PyTextRank" ;;
  print " " ;;
  line ← input "Enter your choice: ";
  ch ← lift (int line);
  mret ch.

Definition TEXT_FILE : string := "sample_text.txt".
Definition LANGUAGE : string := "english".
Definition SENTENCE_COUNT : Z := 2.

Definition main : M unit :=
  choice ← getAlgorithmChoice;
  if choice =? 1 then
    sumySummarize TEXT_FILE LANGUAGE SENTENCE_COUNT ;; mret tt
  else if choice =? 2 then
    gensimSummarize TEXT_FILE ratio_0_2 ;; mret tt
  else if choice =? 3 then
    pyteasSummarize TEXT_FILE "Topic Modelling" SENTENCE_COUNT ;; mret tt
  else if choice =? 4 then
    pytrankSummarize TEXT_FILE ;; mret tt
  else
    print "Wrong choice".

End Source.

(** ** An executable instance of the packages

    A small instance of the interface, to run the embedding on concrete
    inputs.  It does not reproduce the packages' algorithms: a document is
    the list of its full-stop terminated sentences, every summarizer returns
    the leading sentences, and the text-rank stages pass lines through. *)
Module Reference.

Fixpoint digits (s : string) (acc : Z) : option Z :=
  match s with
  | EmptyString => Some acc
  | String a s' =>
      let n := Z.of_nat (nat_of_ascii a) in
      if (48 <=? n) && (n <=? 57) then digits s' (10 * acc + (n - 48)) else None
  end.

(** [int(s)] on an optionally signed run of ASCII digits. *)
Definition int_decimal (s : string) : exn + Z :=
  match s with
  | EmptyString => inl (ValueError s)
  | String a s' =>
      if Ascii.eqb a "-"%char then
        match s' with
        | EmptyString => inl (ValueError s)
        | _ => from_option (fun n => inr (- n)) (inl (ValueError s)) (digits s' 0)
        end
      else from_option inr (inl (ValueError s)) (digits s 0)
  end.

Fixpoint escape (s : string) : string :=
  match s with
  | EmptyString => EmptyString
  | String a s' =>
      if Ascii.eqb a dquote || Ascii.eqb a "\"%char
      then String "\"%char (String a (escape s'))
      else String a (escape s')
  end.

Definition quoted (s : string) : string :=
  String dquote (escape s) +:+ String dquote EmptyString.

Definition dumps_item (v : pyval) : string :=
  match v with
  | PInt n => pretty n
  | PStr s => quoted s
  | PDict _ => "{}"
  end.

(** [json.dumps] on integers, strings and flat dictionaries. *)
Definition dumps (v : pyval) : string :=
  match v with
  | PDict items =>
      "{" +:+ join ", " (map (fun '(k, x) => quoted k +:+ ": " +:+ dumps_item x) items) +:+ "}"
  | _ => dumps_item v
  end.

Definition trim_left (s : string) : string :=
  match s with
  | String a s' => if Ascii.eqb a " "%char then s' else s
  | EmptyString => s
  end.

(** The sentences of a text: the non-empty pieces between full stops. *)
Definition sentences (text : string) : list string :=
  map (fun p => trim_left p +:+ ".")
      (filter (fun p => p ≠ EmptyString) (split dot text)).

Definition lines (text : string) : list string :=
  filter (fun p => p ≠ EmptyString) (split (Ascii.ascii_of_nat 10) text).

#[export] Instance packages : Packages := {|
  int := int_decimal;
  json_dumps := dumps;
  tokenizer := string;
  stemmer := string;
  stop_words := list string;
  document := list string;
  sentence := string;
  Tokenizer := inr;
  Stemmer := inr;
  get_stop_words := fun _ => inr ["the"; "a"; "on"];
  parse_document := fun text _ => inr (sentences text);
  summarizer_call := fun _ _ _ doc k => inr (slice_to doc k);
  str := id;
  ratio := unit;
  ratio_0_2 := tt;
  summarize := fun text _ => inr (join " " (take 1 (sentences text)));
  teaser_sentence := string;
  Summarize := fun _ text => inr (sentences text);
  teaser_str := id;
  graf := string;
  ranks := unit;
  phrase := string;
  kernel := unit;
  ranked_sentence := string;
  sent_text := string;
  parse_doc_json_iter := fun text => (lines text, None);
  pretty_print_graf := id;
  text_rank := fun _ => inr tt;
  normalize_key_phrases := fun text _ => (lines text, None);
  pretty_print_phrase := id;
  rank_kernel := fun _ => inr tt;
  top_sentences := fun _ text => (lines text, None);
  pretty_print_sentence := id;
  limit_keyphrases := fun text limit => (take (Z.to_nat limit) (lines text), None);
  limit_sentences := fun text _ => (imap (fun i l => (l, Z.of_nat i)) (lines text), None);
  make_sentence := inr
|}.

(** A world with the sample file of the script. *)
Definition sample : string :=
  "The cat sat. The cat sat on the " +:+ quoted "mat" +:+ ". Dogs bark loudly.".

Definition world0 (typed : list string) : world :=
  World {[ TEXT_FILE := sample ]} [] typed [].

(** What every summarizer of the instance returns on the sample. *)
Definition leading (n : Z) : list string := slice_to (sentences sample) n.

End Reference.

(** ** The words of the claims about strings *)

(** The portion of [s] before the first [c]. *)
Fixpoint before_first (c : ascii) (s : string) : string :=
  match s with
  | EmptyString => EmptyString
  | String a s' => if Ascii.eqb a c then EmptyString else String a (before_first c s')
  end.

(** [c] occurs in [s]. *)
Fixpoint occurs (c : ascii) (s : string) : Prop :=
  match s with
  | EmptyString => False
  | String a s' => a = c \/ occurs c s'
  end.

(** [s] with every occurrence of [c] removed. *)
Definition without (c : ascii) (s : string) : string :=
  string_of_list_ascii
    (List.filter (fun a => negb (Ascii.eqb a c)) (list_ascii_of_string s)).

(** ** How the calls touch the world *)

Definition is_read (ev : event) : Prop :=
  match ev with
  | EvRead _ => True
  | _ => False
  end.

(** A computation that only reads files: its result depends on the file
    system alone, it leaves files, console and keyboard as they were, and
    the journal grows by read entries only. *)
Definition reader {A} (c : M A) : Prop :=
  forall w1 w2, files w1 = files w2 ->
    fst (c w1) = fst (c w2) /\
    files (snd (c w1)) = files w1 /\
    console (snd (c w1)) = console w1 /\
    keyboard (snd (c w1)) = keyboard w1 /\
    exists evs : list event, journal (snd (c w1)) = (journal w1 ++ evs)%list /\ Forall is_read evs.

(** A computation that never removes a file nor a journal entry. *)
Definition keeps {A} (c : M A) : Prop :=
  forall w,
    (forall path, is_Some (files w !! path) -> is_Some (files (snd (c w)) !! path)) /\
    (forall ev, ev ∈ journal w -> ev ∈ journal (snd (c w))).

(** ** The claims about the entry points, as the specification words them *)

Definition algorithm_name (a : algorithm) : string :=
  match a with
  | Luhn => "Luhn"
  | LSA => "LSA"
  | TextRank => "TextRank"
  | LexRank => "LexRank"
  | SumBasic => "SumBasic"
  | KL => "KL"
  end.

Definition algorithms : list algorithm := [Luhn; LSA; TextRank; LexRank; SumBasic; KL].

Definition menu : list string :=
  [" "; "Algorithm/library choices for summarization ... ";
   "1. Sumy (all algorithms)"; "2. Gensim"; "3. PyTeaser"; "4. PyTextRank"; " "].

Section Claims.
Context `{P : Packages}.

(** The result of the entry point is the result of one strategy. *)
Definition one_strategy_result : Prop :=
  forall w filename language k summaries w',
    0 < k ->
    sumySummarize filename language k w = (Ok summaries, w') ->
    exists a, dom summaries = {[ algorithm_name a ]}.

(** The entry points fail on a non-positive [k] and on an unknown choice. *)
Definition facade_rejects : Prop :=
  (forall w filename language k,
      k <= 0 -> exists e w', sumySummarize filename language k w = (Raise e, w')) /\
  (forall w line rest c,
      keyboard w = line :: rest -> int line = inr c -> c < 1 \/ 4 < c ->
      exists e w', main w = (Raise e, w')).

(** No call reads or writes a file or changes the world. *)
Definition calls_are_pure : Prop :=
  forall w filename language title k fraction,
    Forall (fun w' => files w' = files w /\ journal w' = journal w)
      [snd (sumySummarize filename language k w);
       snd (gensimSummarize filename fraction w);
       snd (pyteasSummarize filename title k w);
       snd (pytrankSummarize filename w)].

(** [pyteasSummarize] returns the first [num_sents] sentences, joined. *)
Definition returns_first_sentences : Prop :=
  forall w filename title num_sents text summary,
    files w !! filename = Some text ->
    Summarize title text = inr summary ->
    fst (pyteasSummarize filename title num_sents w)
    = Ok (join " " (map teaser_str (take (Z.to_nat num_sents) summary))).

(** The dictionary that holds, under each algorithm's name, what that
    summarizer returned ([out]), as strings. *)
Definition all_summaries (out : algorithm -> list sentence) : gmap string (list string) :=
  <["KL" := map str (out KL)]>
    (<["SumBasic" := map str (out SumBasic)]>
       (<["LexRank" := map str (out LexRank)]>
          (<["TextRank" := map str (out TextRank)]>
             (<["LSA" := map str (out LSA)]>
                (<["Luhn" := map str (out Luhn)]> ∅))))).

(** An exception that came out of one of the [sumy] calls. *)
Definition raised_by_sumy (e : exn) (language : string) (k : Z) : Prop :=
  Tokenizer language = inl e \/
  Stemmer language = inl e \/
  get_stop_words language = inl e \/
  (exists text tok, parse_document text tok = inl e) \/
  (exists a st sw doc, summarizer_call a st sw doc k = inl e).

End Claims.

(** * The summarisation core of the specification

    The scoring strategies themselves are not code of the file: lines 77 to
    104 import them from [sumy] and call them.  What the specification says
    about them (its sections 3, 4 and 6) is modelled in this module from its
    words.  Scores are rational numbers. *)
Module Core.

#[local] Open Scope Q_scope.

(** ** Data model (section 3) *)

(** Modelled from the spec: the token of [sumy]'s tokenizer, which is not in
    the repository.  A token carries its surface form, its stem and its
    stop-word flag. *)
Record Token : Type := mkToken {
  surface : string;
  stem : string;
  stopword : bool
}.

(** Modelled from the spec: the sentence object of [sumy], which is not in
    the repository.  A sentence carries its text and its tokens; its position
    is its index in the document. *)
Record Sentence : Type := mkSentence {
  text : string;
  tokens : list Token
}.

(** Modelled from the spec: the document of [sumy]'s parser, the ordered
    sequence of its sentences. *)
Abbreviation Document := (list Sentence).

(** Modelled from the spec: the recognised options of section 6 (the file
    sets none of them). *)
Record Config : Type := mkConfig {
  damping_factor : Q;
  convergence_epsilon : Q;
  max_iterations : nat;
  luhn_cluster_gap : nat;
  top_word_count : nat
}.

(** Modelled from the spec: the defaults of the options, section 6. *)
Definition default_config : Config :=
  {| damping_factor := 85 # 100;
     convergence_epsilon := 1 # 10000;
     max_iterations := 100;
     luhn_cluster_gap := 4;
     top_word_count := 100 |}.

(** Modelled from the spec: one record of the output of [summarize], with
    text, position and score (the file returns plain strings). *)
Record Selected : Type := mkSelected {
  sel_text : string;
  sel_position : nat;
  sel_score : Q
}.

(** ** FrequencyModel (section 4.2) *)

(** Modelled from the spec: the frequency model is built from the stemmed
    tokens that are not stop words; these are the ones of a sentence, in
    order. *)
Definition content_words (s : Sentence) : list string :=
  map stem (filter (fun t => stopword t = false) (tokens s)).

(** Modelled from the spec: the same, for the whole document. *)
Definition document_words (d : Document) : list string :=
  List.concat (map content_words d).

(** The distinct elements of a list, in the order of their first occurrence. *)
Fixpoint distinct (l : list string) : list string :=
  match l with
  | [] => []
  | x :: l' => x :: filter (fun y => y ≠ x) (distinct l')
  end.

(** Modelled from the spec: [tf(term)], the global term frequency. *)
Definition tf (d : Document) (w : string) : nat :=
  List.length (filter (fun y => y = w) (document_words d)).

(** Modelled from the spec: the order of [topWords].  A term comes with the
    index of its first occurrence and its count; [a] is before [b] when its
    count is larger, or when the counts are equal and it occurs first. *)
Definition more_frequent (a b : nat * (string * nat)) : Prop :=
  (snd (snd b) < snd (snd a))%nat \/
  (snd (snd a) = snd (snd b) /\ (fst a <= fst b)%nat).

#[global] Instance more_frequent_dec a b : Decision (more_frequent a b) :=
  decide ((snd (snd b) < snd (snd a))%nat \/
          (snd (snd a) = snd (snd b) /\ (fst a <= fst b)%nat)).

(** Modelled from the spec: [topWords(n)], the [n] most frequent terms, ties
    broken by first occurrence in the document. *)
Definition topWords (d : Document) (n : nat) : list string :=
  let terms := distinct (document_words d) in
  let counted := imap (fun i w => (i, (w, tf d w))) terms in
  map (fun a => fst (snd a)) (take n (merge_sort more_frequent counted)).

(** ** SentenceSelector (section 4.5) *)

(** Modelled from the spec: the order of selection of the SentenceSelector
    ([sumy] does the selection inside its summarizers).  Higher score first;
    equal scores in ascending original position. *)
Definition ranks_before (a b : nat * Q) : bool :=
  match snd a ?= snd b with
  | Gt => true
  | Eq => (fst a <=? fst b)%nat
  | Lt => false
  end.

Definition by_rank (a b : nat * Q) : Prop := ranks_before a b = true.

(** Modelled from the spec: the original document order. *)
Definition by_position (a b : nat * Q) : Prop := (fst a <= fst b)%nat.

#[global] Instance by_rank_dec a b : Decision (by_rank a b) :=
  decide (ranks_before a b = true).

#[global] Instance by_position_dec a b : Decision (by_position a b) :=
  decide (fst a <= fst b)%nat.

#[global] Instance Qeq_decision (x y : Q) : Decision (x == y) := Qeq_dec x y.

(** Modelled from the spec: the ScoreVector, a score for each sentence
    position. *)
Definition indexed (scores : list Q) : list (nat * Q) := imap pair scores.

(** Modelled from the spec: the SentenceSelector.  Sort by score descending,
    keep the first [k], and put the kept sentences back in document order. *)
Definition select (scores : list Q) (k : nat) : list (nat * Q) :=
  merge_sort by_position (take k (merge_sort by_rank (indexed scores))).

(** Modelled from the spec: the output records of the chosen positions. *)
Definition output (d : Document) (chosen : list (nat * Q)) : list Selected :=
  omap (fun '(i, x) => (fun s => mkSelected (text s) i x) <$> d !! i) chosen.

(** ** Luhn scoring (section 4.2) *)

(** Modelled from the spec: Luhn scoring is [sumy]'s [LuhnSummarizer], which
    is not in the repository.  These are the positions, in a sentence, of the
    occurrences of top words. *)
Definition significant (top : list string) (s : Sentence) : list nat :=
  map fst (filter (fun it => stopword (snd it) = false /\ stem (snd it) ∈ top)
                  (imap pair (tokens s))).

(** Modelled from the spec: the clusters of significant positions; a cluster
    ends when the gap to the next significant position exceeds [gap]. *)
Fixpoint clusters (gap : nat) (ps : list nat) : list (list nat) :=
  match ps with
  | [] => []
  | p :: ps' =>
      match clusters gap ps' with
      | (q :: c) :: cs =>
          if (q - p <=? gap)%nat then (p :: q :: c) :: cs else [p] :: (q :: c) :: cs
      | _ => [[p]]
      end
  end.

(** Modelled from the spec: the square of the number of top words of a
    cluster over the length of its span. *)
Definition cluster_score (c : list nat) : Q :=
  match c with
  | [] => 0
  | first :: _ =>
      let span := (List.last c first - first + 1)%nat in
      Z.of_nat (List.length c * List.length c) # Pos.of_nat span
  end.

Definition Qmax (x y : Q) : Q := if Qle_bool x y then y else x.

(** Modelled from the spec: the Luhn score of a sentence, the score of its
    best cluster; 0 when it has no top word. *)
Definition luhn_score (cfg : Config) (top : list string) (s : Sentence) : Q :=
  foldr Qmax 0 (map cluster_score (clusters (luhn_cluster_gap cfg) (significant top s))).

(** Modelled from the spec: the Luhn ScoreVector of a document. *)
Definition luhn_scores (cfg : Config) (d : Document) : list Q :=
  map (luhn_score cfg (topWords d (top_word_count cfg))) d.

(** Modelled from the spec: the Luhn strategy followed by the selector. *)
Definition luhn_select (cfg : Config) (d : Document) (k : nat) : list (nat * Q) :=
  select (luhn_scores cfg d) k.

Definition luhn_summarize (cfg : Config) (d : Document) (k : nat) : list Selected :=
  output d (luhn_select cfg d k).

(** The number of top words that a sentence contains. *)
Definition top_words_in (cfg : Config) (d : Document) (s : Sentence) : nat :=
  List.length (significant (topWords d (top_word_count cfg)) s).

(** The number of sentences whose score is not zero. *)
Definition nonzero_count (scores : list Q) : nat :=
  List.length (filter (fun x => ~ x == 0) scores).

(** ** SumBasic scoring (section 4.2) *)

(** Modelled from the spec: the WordProbabilityTable of SumBasic, which is
    [sumy]'s [SumBasicSummarizer] and not in the repository.  A word without
    an entry has probability 0. *)
Definition p_of (p : gmap string Q) (w : string) : Q := default 0 (p !! w).

(** Modelled from the spec: step 1 of SumBasic,
    [p(w) = count(w) / totalWords]. *)
Definition initial_prob (d : Document) : gmap string Q :=
  let total := List.length (document_words d) in
  list_to_map
    (map (fun w => (w, Z.of_nat (tf d w) # Pos.of_nat total))
         (distinct (document_words d))).

Definition Qsum (xs : list Q) : Q := foldr Qplus 0 xs.

(** The average of a list of numbers; 0 for the empty list. *)
Definition average (xs : list Q) : Q :=
  match xs with
  | [] => 0
  | _ => Qsum xs / inject_Z (Z.of_nat (List.length xs))
  end.

(** Modelled from the spec: the distinct words of a sentence that are not
    stop words. *)
Definition words_of (s : Sentence) : list string := distinct (content_words s).

(** Modelled from the spec: step 2 of SumBasic, the average of [p(w)] over
    the distinct words of the sentence that are not stop words. *)
Definition sb_score (p : gmap string Q) (s : Sentence) : Q :=
  average (map (p_of p) (words_of s)).

(** Modelled from the spec: step 3 of SumBasic, the candidate of highest
    score, the earliest one among equals ([cands] is in ascending order). *)
Fixpoint best (score : nat -> Q) (cands : list nat) : option nat :=
  match cands with
  | [] => None
  | i :: rest =>
      match best score rest with
      | None => Some i
      | Some j => if Qlt_le_dec (score i) (score j) then Some j else Some i
      end
  end.

(** Modelled from the spec: step 4 of SumBasic, [p(w)] becomes its square
    for every word of the sentence. *)
Definition square_words (p : gmap string Q) (ws : list string) : gmap string Q :=
  foldr (fun w q => alter (fun x => x * x) w q) p ws.

(** Modelled from the spec: the state of one SumBasic run, local to it: the
    table, the positions not yet chosen and those chosen so far. *)
Record sb_state : Type := mkSb {
  sb_prob : gmap string Q;
  sb_remaining : list nat;
  sb_chosen : list nat
}.

Definition sb_init (d : Document) : sb_state :=
  mkSb (initial_prob d) (seq 0 (List.length d)) [].

Definition sb_score_at (d : Document) (p : gmap string Q) (j : nat) : Q :=
  from_option (sb_score p) 0 (d !! j).

(** Modelled from the spec: one iteration of SumBasic, steps 2 to 4. *)
Definition sb_step (d : Document) (st : sb_state) : option (nat * sb_state) :=
  match best (sb_score_at d (sb_prob st)) (sb_remaining st) with
  | None => None
  | Some i =>
      let ws := from_option words_of [] (d !! i) in
      Some (i, mkSb (square_words (sb_prob st) ws)
                    (filter (fun j => j ≠ i) (sb_remaining st))
                    (sb_chosen st ++ [i]))
  end.

(** Modelled from the spec: step 5 of SumBasic, repeat until [k] sentences
    are chosen or none remains.  The trace keeps, for each iteration, the
    state before, the position chosen and the state after. *)
Fixpoint sb_trace (d : Document) (k : nat) (st : sb_state)
    : list (sb_state * nat * sb_state) :=
  match k with
  | O => []
  | S k' =>
      match sb_step d st with
      | None => []
      | Some (i, st') => (st, i, st') :: sb_trace d k' st'
      end
  end.

(** What holds of the state before every iteration: the remaining
    positions are in ascending order and are positions of the document. *)
Definition sb_ok (d : Document) (st : sb_state) : Prop :=
  StronglySorted lt (sb_remaining st) /\
  Forall (fun j => (j < List.length d)%nat) (sb_remaining st).

(** Modelled from the spec: the positions that SumBasic chooses, in the
    order of choice. *)
Definition sumbasic_choice (d : Document) (k : nat) : list nat :=
  map (fun it => snd (fst it)) (sb_trace d k (sb_init d)).

(** Modelled from the spec: for SumBasic the selector only puts the chosen
    sentences back in document order. *)
Definition sumbasic_summarize (d : Document) (k : nat) : list nat :=
  merge_sort le (sumbasic_choice d k).

(** ** GraphRank: the power iteration (section 4.3) *)

(** Modelled from the spec: the arithmetic of the ranking, which is done by
    [sumy]'s TextRank and LexRank summarizers and is not in the repository.
    The specification computes with real-valued scores; the iteration is
    written once for any number type, and run on rationals. *)
Class Arith (num : Type) : Type := {
  zero : num;
  one : num;
  add : num -> num -> num;
  sub : num -> num -> num;
  mul : num -> num -> num;
  abs : num -> num;
  inv_nat : nat -> num;
  below : num -> num -> bool
}.

(** Rationals, kept in lowest terms after each operation. *)
#[global] Instance Q_arith : Arith Q := {|
  zero := 0;
  one := 1;
  add := fun x y => Qred (x + y);
  sub := fun x y => Qred (x - y);
  mul := fun x y => Qred (x * y);
  abs := Qabs;
  inv_nat := fun n => 1 # Pos.of_nat n;
  below := fun x y => negb (Qle_bool y x)
|}.

(** Modelled from the spec: what the ranking returns.  There is no error
    alternative: non-convergence is reported by the flag, with the last
    iterate as the scores. *)
Record Ranking (num : Type) : Type := mkRanking {
  rank_scores : list num;
  rank_iterations : nat;
  rank_converged : bool
}.
Arguments mkRanking {num}.
Arguments rank_scores {num}.
Arguments rank_iterations {num}.
Arguments rank_converged {num}.

Section PowerIteration.
Context {num : Type} `{Arith num}.
Variables (d eps : num) (cap : nat) (M : list (list num)).

Definition vsum (v : list num) : num := foldr add zero v.

(** Modelled from the spec: [M^T p]; component [j] is the sum over [i] of
    [M i j * p i]. *)
Definition mtp (p : list num) : list num :=
  foldr (fun rx acc => zip_with add (map (fun m => mul m (snd rx)) (fst rx)) acc)
        (replicate (List.length p) zero)
        (zip M p).

(** Modelled from the spec: one step, [p_(t+1) = (1 - d) + d * M^T p_t]. *)
Definition next (p : list num) : list num :=
  map (fun y => add (sub one d) (mul d y)) (mtp p).

(** Modelled from the spec: the L1 distance of two vectors. *)
Definition l1 (u v : list num) : num :=
  vsum (zip_with (fun a b => abs (sub a b)) u v).

(** Modelled from the spec: the initial vector is uniform. *)
Definition uniform (n : nat) : list num := replicate n (inv_nat n).

(** Modelled from the spec: the power iteration.  Iterate until the L1
    change is below [eps] or the cap is reached; at the cap, the last iterate
    is returned, flagged as not converged. *)
Fixpoint power_loop (fuel : nat) (t : nat) (p : list num) : Ranking num :=
  match fuel with
  | O => mkRanking p t false
  | S fuel' =>
      let p' := next p in
      if below (l1 p' p) eps then mkRanking p' (S t) true
      else power_loop fuel' (S t) p'
  end.

Definition power_iteration : Ranking num :=
  power_loop cap 0 (uniform (List.length M)).

(** Whether the step from iterate [s] to iterate [s + 1], counted from [p],
    changes the vector by less than [eps]. *)
Definition settles (p : list num) (s : nat) : bool :=
  below (l1 (Nat.iter (S s) next p) (Nat.iter s next p)) eps.

End PowerIteration.

(** Modelled from the spec: the ranking with the options of a
    configuration. *)
Definition graph_rank (cfg : Config) (M : list (list Q)) : Ranking Q :=
  power_iteration (damping_factor cfg) (convergence_epsilon cfg)
                  (max_iterations cfg) M.

(** ** Documents and matrices to run the strategies on *)

Definition word (w : string) : Token := mkToken w w false.
Definition stop (w : string) : Token := mkToken w w true.

(** The three sentences of the example of the specification (section 8),
    and a fourth one made of stop words only. *)
Definition cats : Document :=
  [ mkSentence "The cat sat." [stop "the"; word "cat"; word "sat"];
    mkSentence "The cat sat on the mat."
      [stop "the"; word "cat"; word "sat"; stop "on"; stop "the"; word "mat"];
    mkSentence "Dogs bark loudly." [word "dogs"; word "bark"; word "loudly"];
    mkSentence "On the." [stop "on"; stop "the"] ].

(** Three sentences in a chain: the middle one is similar to both ends. *)
Definition chain : list (list Q) :=
  [ [0; 1; 0]; [1 # 2; 0; 1 # 2]; [0; 1; 0] ].

(** The defaults, with a cap of three steps and a coarser epsilon. *)
Definition three_rounds : Config :=
  {| damping_factor := 85 # 100;
     convergence_epsilon := 1 # 10;
     max_iterations := 3;
     luhn_cluster_gap := 4;
     top_word_count := 100 |}.

End Core.

(** * More words about the entry points *)

(** The place of each algorithm in the order in which [sumySummarize] runs
    them (lines 99 to 104). *)
Definition run_order (a : algorithm) : nat :=
  match a with
  | Luhn => 0
  | LSA => 1
  | TextRank => 2
  | LexRank => 3
  | SumBasic => 4
  | KL => 5
  end.

(** The strings of a list, one after the other. *)
Definition concat_str (l : list string) : string :=
  foldr String.append EmptyString l.

(** [p] is a (possibly equal) beginning of [s]. *)
Definition begins (p s : string) : Prop := exists rest, s = p +:+ rest.

(** The three files that [pytrankSummarize] opens for writing. *)
Definition stage_files : list string := ["o1.json"; "o2.json"; "o3.json"].

(** Two worlds hold the same contents at the paths of [L]. *)
Definition same_on (L : list string) (w1 w2 : world) : Prop :=
  forall p, p ∈ L -> files w1 !! p = files w2 !! p.

(** A computation whose result depends on the files of [L] alone and which,
    when it returns, leaves two worlds that agreed on [L] in agreement on
    [L']. *)
Definition carries (L L' : list string) {A} (c : M A) : Prop :=
  forall w1 w2, same_on L w1 w2 ->
    fst (c w1) = fst (c w2) /\
    (forall a, fst (c w1) = Ok a -> same_on L' (snd (c w1)) (snd (c w2))).

(** A computation that prints nothing. *)
Definition quiet {A} (c : M A) : Prop :=
  forall w, console (snd (c w)) = console w.

(** From any world whose file system is [fs], the computation ends with
    [r] and leaves the file system [fs']. *)
Definition yields {A} (c : M A) (fs : gmap string string) (r : res A)
    (fs' : gmap string string) : Prop :=
  forall w, files w = fs -> fst (c w) = r /\ files (snd (c w)) = fs'.

(** The sort keys of a list are in ascending order. *)
Definition ascending {A} (key : A -> Z) (l : list A) : Prop :=
  Sorted (fun a b => key a <= key b) l.

(** What a loop that writes [out x] for each item appends to its file. *)
Definition written {A} (out : A -> string) (items : list A) : string :=
  concat_str (map out items).

(** ** An instance of the packages that can fail

    The executable instance, with switches that make a package call raise.
    It serves to run the entry points on their failure paths. *)
Module Faulty.
Import Reference.

Record faults : Type := Faults {
  no_tokenizer : bool;
  no_stemmer : bool;
  no_stop_words : bool;
  no_document : bool;
  failing : algorithm -> bool;
  no_summarize : bool;
  no_Summarize : bool;
  parse_doc_stops : bool;
  no_text_rank : bool
}.

Definition none : faults :=
  Faults false false false false (fun _ => false) false false false false.

Definition LookupError : exn := Foreign "LookupError".
Definition PackageError : exn := Foreign "Exception".

Definition guard {A} (broken : bool) (e : exn) (a : A) : exn + A :=
  if broken then inl e else inr a.

Definition packages (f : faults) : Packages :=
  {| int := int_decimal;
     json_dumps := dumps;
     tokenizer := string;
     stemmer := string;
     stop_words := list string;
     document := list string;
     sentence := string;
     Tokenizer := fun l => guard (no_tokenizer f) LookupError l;
     Stemmer := fun l => guard (no_stemmer f) LookupError l;
     get_stop_words := fun _ => guard (no_stop_words f) LookupError ["the"; "a"; "on"];
     parse_document := fun text _ => guard (no_document f) PackageError (sentences text);
     summarizer_call :=
       fun a _ _ doc k => guard (failing f a) (Foreign (algorithm_name a)) (slice_to doc k);
     str := id;
     ratio := unit;
     ratio_0_2 := tt;
     summarize :=
       fun text _ => guard (no_summarize f) PackageError (join " " (take 1 (sentences text)));
     teaser_sentence := string;
     Summarize := fun _ text => guard (no_Summarize f) PackageError (sentences text);
     teaser_str := id;
     graf := string;
     ranks := unit;
     phrase := string;
     kernel := unit;
     ranked_sentence := string;
     sent_text := string;
     parse_doc_json_iter :=
       fun text => (lines text, if parse_doc_stops f then Some PackageError else None);
     pretty_print_graf := id;
     text_rank := fun _ => guard (no_text_rank f) PackageError tt;
     normalize_key_phrases := fun text _ => (lines text, None);
     pretty_print_phrase := id;
     rank_kernel := fun _ => inr tt;
     top_sentences := fun _ text => (lines text, None);
     pretty_print_sentence := id;
     limit_keyphrases := fun text limit => (take (Z.to_nat limit) (lines text), None);
     limit_sentences := fun text _ => (imap (fun i l => (l, Z.of_nat i)) (lines text), None);
     make_sentence := inr |}.

End Faulty.
(** ** Running the monad *)

Lemma bind_Ok {A B} (c : M A) (k : A -> M B) w a w' :
  c w = (Ok a, w') -> (c ≫= k) w = k a w'.
Proof. intros H. unfold mbind, M_bind, bind. now rewrite H. Qed.

Lemma bind_Raise {A B} (c : M A) (k : A -> M B) w e w' :
  c w = (Raise e, w') -> (c ≫= k) w = (Raise e, w').
Proof. intros H. unfold mbind, M_bind, bind. now rewrite H. Qed.

Lemma bind_inv_Ok {A B} (c : M A) (k : A -> M B) w b w2 :
  (c ≫= k) w = (Ok b, w2) ->
  exists a w1, c w = (Ok a, w1) /\ k a w1 = (Ok b, w2).
Proof.
  unfold mbind, M_bind, bind. destruct (c w) as [[a|e] w1]; intros H.
  - now exists a, w1.
  - discriminate.
Qed.

Lemma bind_inv_Raise {A B} (c : M A) (k : A -> M B) w e w2 :
  (c ≫= k) w = (Raise e, w2) ->
  c w = (Raise e, w2) \/ exists a w1, c w = (Ok a, w1) /\ k a w1 = (Raise e, w2).
Proof.
  unfold mbind, M_bind, bind. destruct (c w) as [[a|e'] w1]; intros H.
  - right. now exists a, w1.
  - left. congruence.
Qed.

Lemma lift_inr {A} (a : A) w : lift (inr a) w = (Ok a, w).
Proof. reflexivity. Qed.

Lemma lift_inl {A} e w : @lift A (inl e) w = (Raise e, w).
Proof. reflexivity. Qed.

Lemma lift_inv_Raise {A} (r : exn + A) w e w' :
  lift r w = (Raise e, w') -> r = inl e /\ w' = w.
Proof. destruct r; cbn; unfold raise, ret; intros [= -> ->]; auto. Qed.

Lemma lift_inv_Ok {A} (r : exn + A) w a w' :
  lift r w = (Ok a, w') -> r = inr a /\ w' = w.
Proof. destruct r; cbn; unfold raise, ret; intros [= -> ->]; auto. Qed.

(** Reading an existing file: the contents, and one journal entry. *)
Lemma read_path_Some w path text :
  files w !! path = Some text ->
  read_path path w = (Ok text, log (EvRead path) w).
Proof.
  intros H. unfold read_path, open, read, close, mbind, M_bind, bind, mret, M_ret, ret.
  rewrite H. simpl. now rewrite H.
Qed.

Lemma read_path_None w path :
  files w !! path = None ->
  read_path path w = (Raise (FileNotFoundError path), w).
Proof.
  intros H. unfold read_path, open, mbind, M_bind, bind. now rewrite H.
Qed.

(** ** Facts about the string helpers *)

Lemma hd_split c s : hd EmptyString (split c s) = before_first c s.
Proof.
  unfold split. induction s as [|a s IH]; simpl; [reflexivity|].
  destruct (split_on c s) as [p ps]. simpl in IH.
  destruct (Ascii.eqb a c); simpl; [reflexivity|]. now f_equal.
Qed.

Lemma before_first_free c s : ~ occurs c (before_first c s).
Proof.
  induction s as [|a s IH]; simpl; [tauto|].
  destruct (Ascii.eqb_spec a c); simpl; tauto.
Qed.

Lemma before_first_prefix c s :
  s = before_first c s \/ exists rest, s = before_first c s +:+ String c rest.
Proof.
  induction s as [|a s IH]; simpl; [now left|].
  destruct (Ascii.eqb_spec a c) as [->|Hne].
  - right. now exists s.
  - destruct IH as [IH|[rest IH]].
    + left. now f_equal.
    + right. exists rest.
      change (String a s = String a (before_first c s +:+ String c rest)).
      now f_equal.
Qed.

Lemma re_sub_del_free c s : ~ occurs c (re_sub_del c s).
Proof.
  induction s as [|a s IH]; simpl; [tauto|].
  destruct (Ascii.eqb_spec a c); simpl; tauto.
Qed.

(** Removing [c] keeps the other characters, in order. *)
Lemma re_sub_del_filter c s :
  list_ascii_of_string (re_sub_del c s)
  = List.filter (fun a => negb (Ascii.eqb a c)) (list_ascii_of_string s).
Proof.
  induction s as [|a s IH]; simpl; [reflexivity|].
  destruct (Ascii.eqb a c); simpl; congruence.
Qed.

(** ** Read-only computations *)

Lemma reader_ret {A} (a : A) : reader (mret a : M A).
Proof.
  intros w1 w2 _. cbn. repeat split. exists []. now rewrite app_nil_r.
Qed.

Lemma reader_raise {A} e : reader (@raise A e).
Proof.
  intros w1 w2 _. cbn. repeat split. exists []. now rewrite app_nil_r.
Qed.

Lemma reader_lift {A} (r : exn + A) : reader (lift r).
Proof. destruct r; [apply reader_raise | apply (reader_ret a)]. Qed.

Lemma reader_bind {A B} (c : M A) (k : A -> M B) :
  reader c -> (forall a, reader (k a)) -> reader (c ≫= k).
Proof.
  intros Hc Hk w1 w2 Hw.
  destruct (Hc w1 w2 Hw) as (Hr & Hf1 & Hc1 & Hk1 & evs1 & Hj1 & He1).
  destruct (Hc w2 w1 (eq_sym Hw)) as (_ & Hf2 & _).
  unfold mbind, M_bind, bind.
  destruct (c w1) as [[a|e] u1], (c w2) as [[a'|e'] u2]; cbn in *; try discriminate.
  - injection Hr as <-.
    assert (Hu : files u1 = files u2) by congruence.
    destruct (Hk a u1 u2 Hu) as (Hr' & Hf' & Hc' & Hk' & evs2 & Hj' & He').
    split; [exact Hr'|]. repeat split; try congruence.
    exists (evs1 ++ evs2)%list. split.
    + rewrite Hj', Hj1. now rewrite app_assoc.
    + now apply Forall_app.
  - repeat split; try congruence. now exists evs1.
Qed.

Lemma reader_open_RD path : reader (open path RD).
Proof.
  intros w1 w2 Hw. unfold open. rewrite <- Hw.
  destruct (files w1 !! path); cbn; repeat split; exists []; now rewrite app_nil_r.
Qed.

Lemma reader_read fh : reader (read fh).
Proof.
  intros w1 w2 Hw. unfold read. cbn. rewrite Hw. repeat split.
  exists [EvRead (h_path fh)]. split; [reflexivity|]. now repeat constructor.
Qed.

Lemma reader_close fh : reader (close fh).
Proof. apply (reader_ret tt). Qed.

Create HintDb effects.
#[local] Hint Resolve reader_ret reader_raise reader_lift reader_open_RD
  reader_read reader_close : effects.

Ltac reader_steps :=
  repeat first
    [ solve [ auto with effects ]
    | apply reader_bind; [| intros ? ] ].

Lemma reader_read_path path : reader (read_path path).
Proof. unfold read_path. reader_steps. Qed.
#[local] Hint Resolve reader_read_path : effects.

(** ** Computations that keep what is there *)

Lemma keeps_ret {A} (a : A) : keeps (mret a : M A).
Proof. intros w. cbn. auto. Qed.

Lemma keeps_raise {A} e : keeps (@raise A e).
Proof. intros w. cbn. auto. Qed.

Lemma keeps_lift {A} (r : exn + A) : keeps (lift r).
Proof. destruct r; [apply keeps_raise | apply (keeps_ret a)]. Qed.

Lemma keeps_bind {A B} (c : M A) (k : A -> M B) :
  keeps c -> (forall a, keeps (k a)) -> keeps (c ≫= k).
Proof.
  intros Hc Hk w. destruct (Hc w) as [Hf Hj].
  unfold mbind, M_bind, bind.
  destruct (c w) as [[a|e] u]; cbn in *; [|auto].
  destruct (Hk a u) as [Hf' Hj']. split; auto.
Qed.

Lemma keeps_open path m : keeps (open path m).
Proof.
  intros w. unfold open. destruct m.
  - destruct (files w !! path); cbn; auto.
  - cbn. split.
    + intros p Hp. destruct (decide (path = p)) as [->|Hne].
      * rewrite lookup_insert_eq. eauto.
      * now rewrite lookup_insert_ne.
    + intros ev Hev. apply elem_of_app. now left.
Qed.

Lemma keeps_read fh : keeps (read fh).
Proof.
  intros w. cbn. split; [auto|]. intros ev Hev. apply elem_of_app. now left.
Qed.

Lemma keeps_write fh data : keeps (write fh data).
Proof.
  intros w. cbn. split.
  - intros p Hp. destruct (decide (h_path fh = p)) as [->|Hne].
    + rewrite lookup_insert_eq. eauto.
    + now rewrite lookup_insert_ne.
  - intros ev Hev. apply elem_of_app. now left.
Qed.

Lemma keeps_close fh : keeps (close fh).
Proof. apply (keeps_ret tt). Qed.

#[local] Hint Resolve keeps_ret keeps_raise keeps_lift keeps_open keeps_read
  keeps_write keeps_close : effects.

Ltac keeps_steps :=
  repeat first
    [ solve [ auto with effects ]
    | apply keeps_bind; [| intros ? ] ].

Lemma keeps_read_path path : keeps (read_path path).
Proof. unfold read_path. keeps_steps. Qed.

Lemma keeps_for_each {A} (items : list A) (body : A -> M unit) :
  (forall x, keeps (body x)) -> keeps (for_each items body).
Proof.
  intros Hb. induction items as [|x items IH]; cbn; [apply (keeps_ret tt)|].
  apply keeps_bind; auto.
Qed.

Lemma keeps_for_gen {A} (g : gen A) (body : A -> M unit) :
  (forall x, keeps (body x)) -> keeps (for_gen g body).
Proof.
  intros Hb. unfold for_gen. apply keeps_bind; [now apply keeps_for_each|].
  intros _. destruct (snd g); auto with effects.
Qed.

Lemma keeps_list_of_gen {A} (g : gen A) : keeps (list_of_gen g).
Proof. unfold list_of_gen. destruct (snd g); auto with effects. Qed.

Lemma keeps_map_M {A B} (f : A -> M B) (l : list A) :
  (forall x, keeps (f x)) -> keeps (map_M f l).
Proof.
  intros Hf. induction l as [|x l IH]; cbn; [apply (keeps_ret [])|].
  apply keeps_bind; [auto|]. intros y.
  apply keeps_bind; [auto|]. intros ys. apply (keeps_ret (y :: ys)).
Qed.

#[local] Hint Resolve keeps_read_path keeps_for_each keeps_for_gen
  keeps_list_of_gen keeps_map_M : effects.

Section SourceFacts.
Context `{P : Packages}.

(** *** [createJSON] *)

Lemma createJSON_run w filename text :
  files w !! filename = Some text ->
  let jsonFile := before_first dot filename +:+ ".json" in
  let body := json_dumps (PDict [("id", PInt 707); ("text", PStr (re_sub_del dquote text))]) in
  createJSON filename w
  = (Ok jsonFile,
     World (<[jsonFile := body]> (files w)) (console w) (keyboard w)
           (journal w ++ [EvRead filename; EvCreate jsonFile; EvWrite jsonFile body])).
Proof.
  intros H jsonFile body.
  unfold createJSON, open, read, write, close, mbind, M_bind, bind, mret, M_ret, ret.
  rewrite H. simpl. rewrite H. simpl. rewrite hd_split.
  fold jsonFile. rewrite lookup_insert_eq. simpl. fold body.
  rewrite insert_insert_eq. unfold log, set_files. simpl.
  now rewrite <- !app_assoc.
Qed.

Lemma createJSON_missing w filename :
  files w !! filename = None ->
  createJSON filename w = (Raise (FileNotFoundError filename), w).
Proof.
  intros H. unfold createJSON, open, mbind, M_bind, bind. now rewrite H.
Qed.

(** *** [sumySummarize] *)

Lemma getSummary_run w p language k a st sw doc out :
  get_stop_words language = inr sw ->
  parse_document (p_text p) (p_tokenizer p) = inr doc ->
  summarizer_call a st (Some sw) doc k = inr out ->
  getSummary p language k (new_summarizer a st) w = (Ok (map str out), w).
Proof.
  intros Hsw Hdoc Hcall.
  unfold getSummary, parser_document, mbind, M_bind, bind. cbn.
  rewrite Hsw. cbn. rewrite Hdoc. cbn. rewrite Hcall. reflexivity.
Qed.

Lemma sumySummarize_run w filename language k text tok st sw doc out :
  files w !! filename = Some text ->
  Tokenizer language = inr tok ->
  Stemmer language = inr st ->
  get_stop_words language = inr sw ->
  parse_document text tok = inr doc ->
  (forall a, summarizer_call a st (Some sw) doc k = inr (out a)) ->
  sumySummarize filename language k w
  = (Ok (all_summaries out), log (EvRead filename) w).
Proof.
  intros Hf Htok Hst Hsw Hdoc Hcall. unfold sumySummarize, from_file.
  rewrite Htok. erewrite bind_Ok by apply lift_inr.
  erewrite bind_Ok.
  2:{ erewrite bind_Ok by (apply read_path_Some; eassumption). reflexivity. }
  rewrite Hst. erewrite bind_Ok by apply lift_inr.
  do 6 (erewrite bind_Ok by (eapply getSummary_run; eauto)).
  reflexivity.
Qed.

Lemma all_summaries_lookup out a :
  all_summaries out !! algorithm_name a = Some (map str (out a)).
Proof. destruct a; reflexivity. Qed.

Lemma all_summaries_dom out :
  dom (all_summaries out) = list_to_set (map algorithm_name algorithms).
Proof.
  unfold all_summaries. rewrite !dom_insert_L, dom_empty_L. cbn. set_solver.
Qed.

End SourceFacts.

Section EntryPoints.
Context `{P : Packages}.

Lemma getSummary_Ok w p language k alg r w' :
  getSummary p language k alg w = (Ok r, w') -> w' = w.
Proof.
  unfold getSummary, parser_document, mbind, M_bind, bind. cbn.
  destruct (get_stop_words language); cbn; [discriminate|].
  destruct (parse_document _ _); cbn; [discriminate|].
  destruct (summarizer_call _ _ _ _ _); cbn; [discriminate|].
  unfold mret, M_ret, ret. congruence.
Qed.

Lemma getSummary_Raise w p language k a st e w' :
  getSummary p language k (new_summarizer a st) w = (Raise e, w') ->
  raised_by_sumy e language k.
Proof.
  unfold getSummary, parser_document, mbind, M_bind, bind, raised_by_sumy. cbn.
  destruct (get_stop_words language) as [e1|sw] eqn:Hsw; cbn.
  { intros [= <- _]. auto. }
  destruct (parse_document _ _) as [e2|doc] eqn:Hdoc; cbn.
  { intros [= <- _]. do 3 right. left. eauto. }
  destruct (summarizer_call _ _ _ _ _) as [e3|out] eqn:Hcall; cbn.
  { intros [= <- _]. do 4 right. eauto 6. }
  discriminate.
Qed.

Lemma sumySummarize_Raise w filename language k e w' :
  sumySummarize filename language k w = (Raise e, w') ->
  (e = FileNotFoundError filename /\ files w !! filename = None) \/
  raised_by_sumy e language k.
Proof.
  unfold sumySummarize, from_file. intros H.
  apply bind_inv_Raise in H as [H|(tok & w1 & Htok & H)].
  { right. left. now apply lift_inv_Raise in H as [-> _]. }
  apply bind_inv_Raise in H as [H|(p & w2 & Hp & H)].
  { left. apply bind_inv_Raise in H as [H|(? & ? & _ & H)]; [|discriminate].
    destruct (files w1 !! filename) eqn:Hf.
    - erewrite read_path_Some in H by eassumption. discriminate.
    - rewrite read_path_None in H by assumption.
      apply lift_inv_Ok in Htok as [_ ->]. split; congruence. }
  apply bind_inv_Raise in H as [H|(st & w3 & Hst & H)].
  { right. right. left. now apply lift_inv_Raise in H as [-> _]. }
  do 6 (apply bind_inv_Raise in H as [H|(? & ? & _ & H)];
        [right; eapply getSummary_Raise; eassumption|]).
  discriminate.
Qed.

Lemma reader_getSummary p language k alg : reader (getSummary p language k alg).
Proof. unfold getSummary, parser_document. reader_steps. Qed.

Lemma reader_sumySummarize filename language k :
  reader (sumySummarize filename language k).
Proof.
  pose proof reader_getSummary.
  unfold sumySummarize, from_file. reader_steps.
Qed.

Lemma reader_gensimSummarize filename fraction :
  reader (gensimSummarize filename fraction).
Proof. unfold gensimSummarize. reader_steps. Qed.

Lemma reader_pyteasSummarize filename title k :
  reader (pyteasSummarize filename title k).
Proof. unfold pyteasSummarize. reader_steps. Qed.

(** Running a reader a second time, on the world the first run left. *)
Lemma reader_again {A} (c : M A) w :
  reader c -> fst (c (snd (c w))) = fst (c w) /\ files (snd (c w)) = files w.
Proof.
  intros Hc. destruct (Hc w w eq_refl) as (_ & Hf & _).
  destruct (Hc (snd (c w)) w Hf) as (Hr & _). auto.
Qed.

Lemma pyteasSummarize_run w filename title num_sents text summary :
  files w !! filename = Some text ->
  Summarize title text = inr summary ->
  pyteasSummarize filename title num_sents w
  = (Ok (join " " (map teaser_str (slice_to summary num_sents))),
     log (EvRead filename) w).
Proof.
  intros Hf Hs.
  unfold pyteasSummarize, open, read, close, mbind, M_bind, bind, mret, M_ret, ret.
  rewrite Hf. cbn. rewrite Hf. cbn. rewrite Hs. reflexivity.
Qed.

(** *** [pytrankSummarize] *)

Lemma keeps_createJSON filename : keeps (createJSON filename).
Proof. unfold createJSON. keeps_steps. Qed.

(** What follows the call of [createJSON]: from line 195 on. *)
Lemma pytrankSummarize_creates_stage1 w filename text :
  files w !! filename = Some text ->
  let w' := snd (pytrankSummarize filename w) in
  is_Some (files w' !! (before_first dot filename +:+ ".json")) /\
  is_Some (files w' !! "o1.json") /\
  EvCreate "o1.json" ∈ journal w'.
Proof.
  intros Hf. unfold pytrankSummarize.
  erewrite bind_Ok by (apply createJSON_run; eassumption).
  set (w1 := World _ _ _ _).
  set (jf := before_first dot filename +:+ ".json").
  erewrite bind_Ok by reflexivity.
  set (w2 := log _ _).
  match goal with |- context [snd (?c w2)] => assert (Hk : keeps c) end.
  { keeps_steps.
    - apply keeps_for_each. intros s. keeps_steps.
    - destruct (snd (top_sentences _ _)); auto with effects.
    - apply keeps_map_M. intros [s idx]. auto with effects. }
  destruct (Hk w2) as [Hfiles Hjournal]. cbn zeta. repeat split.
  - apply Hfiles. subst w2 w1. cbn.
    destruct (decide ("o1.json" = jf)) as [<-|Hne].
    + rewrite lookup_insert_eq. eauto.
    + rewrite lookup_insert_ne by assumption. rewrite lookup_insert_eq. eauto.
  - apply Hfiles. subst w2. cbn. rewrite lookup_insert_eq. eauto.
  - apply Hjournal. subst w2. cbn. apply elem_of_app. right. constructor.
Qed.

(** *** The script body *)

Lemma getAlgorithmChoice_run w line rest c :
  keyboard w = line :: rest ->
  int line = inr c ->
  getAlgorithmChoice w
  = (Ok c,
     World (files w) (console w ++ menu) rest
           (journal w ++ map EvPrint menu ++ [EvInput "Enter your choice: "])).
Proof.
  intros Hk Hi.
  unfold getAlgorithmChoice, print, input, mbind, M_bind, bind, mret, M_ret, ret. cbn.
  rewrite Hk. cbn. rewrite Hi. cbn. unfold log. cbn.
  rewrite <- !app_assoc. reflexivity.
Qed.

Lemma main_wrong_choice w line rest c :
  keyboard w = line :: rest ->
  int line = inr c ->
  c < 1 \/ 4 < c ->
  main w
  = (Ok tt,
     World (files w) (console w ++ menu ++ ["Wrong choice"]) rest
           (journal w ++ map EvPrint menu
              ++ [EvInput "Enter your choice: "; EvPrint "Wrong choice"])).
Proof.
  intros Hk Hi Hc. unfold main.
  erewrite bind_Ok by (eapply getAlgorithmChoice_run; eassumption).
  destruct (Z.eqb_spec c 1); [lia|]. destruct (Z.eqb_spec c 2); [lia|].
  destruct (Z.eqb_spec c 3); [lia|]. destruct (Z.eqb_spec c 4); [lia|].
  unfold print, log. cbn. rewrite <- !app_assoc. reflexivity.
Qed.

End EntryPoints.

(** * Facts about the summarisation core *)
Module CoreFacts.
Import Core.

#[local] Open Scope Q_scope.

(** ** The order of selection *)

Lemma by_rank_spec a b :
  by_rank a b <-> snd b < snd a \/ (snd a == snd b /\ (fst a <= fst b)%nat).
Proof.
  unfold by_rank, ranks_before.
  destruct (snd a ?= snd b) eqn:Hc.
  - apply Qeq_alt in Hc. rewrite Nat.leb_le. split.
    + intros H. right. auto.
    + intros [H|[_ H]]; [|exact H]. rewrite Hc in H. now apply Qlt_irrefl in H.
  - apply Qlt_alt in Hc. split; [discriminate|].
    intros [H|[H _]]; lra.
  - apply Qgt_alt in Hc. split; [auto|reflexivity].
Qed.

#[global] Instance by_rank_total : Total by_rank.
Proof.
  intros a b. rewrite !by_rank_spec.
  destruct (Qlt_le_dec (snd b) (snd a)) as [H|H]; [auto|].
  destruct (Qlt_le_dec (snd a) (snd b)) as [H'|H']; [auto|].
  assert (snd a == snd b) by lra.
  destruct (Nat.le_ge_cases (fst a) (fst b)); [left|right]; right; split;
    auto; lra.
Qed.

#[global] Instance by_rank_trans : Transitive by_rank.
Proof.
  intros a b c. rewrite !by_rank_spec.
  intros [H1|[H1 L1]] [H2|[H2 L2]].
  - left. lra.
  - left. lra.
  - left. lra.
  - right. split; [lra|lia].
Qed.

#[global] Instance by_position_total : Total by_position.
Proof. intros a b. unfold by_position. lia. Qed.

#[global] Instance by_position_trans : Transitive by_position.
Proof. intros a b c. unfold by_position. lia. Qed.

(** ** The indexed score vector *)

Lemma elem_of_indexed scores i x :
  (i, x) ∈ indexed scores <-> scores !! i = Some x.
Proof.
  unfold indexed. rewrite elem_of_lookup_imap. split.
  - intros (j & y & [= -> ->] & H). exact H.
  - intros H. eauto.
Qed.

Lemma indexed_snd scores : map snd (indexed scores) = scores.
Proof.
  unfold indexed. generalize 0%nat as n.
  assert (G : forall (f : nat -> nat) (l : list Q),
             map snd (imap (fun i x => (f i, x)) l) = l).
  { intros f l. revert f. induction l as [|x l IH]; intros f; cbn; [reflexivity|].
    f_equal. apply (IH (f ∘ S)). }
  intros _. apply (G id).
Qed.

Lemma indexed_length scores : List.length (indexed scores) = List.length scores.
Proof. unfold indexed. apply length_imap. Qed.

Lemma indexed_sorted scores : StronglySorted by_position (indexed scores).
Proof.
  unfold indexed.
  assert (G : forall (l : list Q) n,
             StronglySorted by_position (imap (fun i x => ((n + i)%nat, x)) l)).
  { induction l as [|x l IH]; intros n; cbn; constructor.
    - specialize (IH (S n)).
      erewrite imap_ext; [exact IH|]. intros i y _. cbn. f_equal. lia.
    - apply Forall_forall. intros [j y] Hj.
      apply elem_of_lookup_imap in Hj as (i & z & [= -> ->] & _).
      unfold by_position. cbn. lia. }
  apply (G scores 0%nat).
Qed.

Lemma indexed_fst_inj scores a b :
  a ∈ indexed scores -> b ∈ indexed scores -> fst a = fst b -> a = b.
Proof.
  destruct a as [i x], b as [j y]. rewrite !elem_of_indexed. cbn.
  intros Hi Hj ->. congruence.
Qed.

(** ** Selection *)

Lemma select_perm scores k :
  select scores k ≡ₚ take k (merge_sort by_rank (indexed scores)).
Proof. unfold select. apply merge_sort_Permutation. Qed.

Lemma select_sorted scores k : StronglySorted by_position (select scores k).
Proof. unfold select. apply StronglySorted_merge_sort; apply _. Qed.

Lemma select_subset scores k a : a ∈ select scores k -> a ∈ indexed scores.
Proof.
  rewrite select_perm. intros H. apply elem_of_take in H as (r & H & _).
  apply list_elem_of_lookup_2 in H. now rewrite merge_sort_Permutation in H.
Qed.

Lemma select_length scores k :
  List.length (select scores k) = Nat.min k (List.length scores).
Proof.
  rewrite select_perm, length_take, merge_sort_Permutation, indexed_length.
  reflexivity.
Qed.

(** With [k] at least the number of sentences, every sentence is selected,
    in document order. *)
Lemma select_all scores k :
  (List.length scores <= k)%nat -> select scores k = indexed scores.
Proof.
  intros Hk.
  assert (Hp : select scores k ≡ₚ indexed scores).
  { rewrite select_perm, take_ge.
    - apply merge_sort_Permutation.
    - now rewrite merge_sort_Permutation, indexed_length. }
  apply (StronglySorted_unique_strong by_position); auto.
  - intros a b Ha Hb H1 H2. rewrite Hp in Ha.
    apply (indexed_fst_inj scores); auto. unfold by_position in *. lia.
  - apply select_sorted.
  - apply indexed_sorted.
Qed.

Lemma nonzero_count_perm (l1 l2 : list (nat * Q)) :
  l1 ≡ₚ l2 -> nonzero_count (map snd l1) = nonzero_count (map snd l2).
Proof. intros H. unfold nonzero_count. now rewrite H. Qed.

Lemma nonzero_count_app l1 l2 :
  nonzero_count (l1 ++ l2) = (nonzero_count l1 + nonzero_count l2)%nat.
Proof. unfold nonzero_count. now rewrite filter_app, length_app. Qed.

Lemma nonzero_count_le l : (nonzero_count l <= List.length l)%nat.
Proof. unfold nonzero_count. apply length_filter. Qed.

Lemma nonzero_count_zero l : Forall (fun x => x == 0) l -> nonzero_count l = 0%nat.
Proof.
  unfold nonzero_count. induction 1 as [|x l Hx _ IH]; [reflexivity|].
  rewrite filter_cons_False; [exact IH|]. tauto.
Qed.

(** A sentence of score zero is selected only after every sentence of
    non-zero score, when no score is negative. *)
Lemma select_zero_last scores k i x :
  Forall (fun y => 0 <= y) scores ->
  (i, x) ∈ select scores k -> x == 0 ->
  (nonzero_count scores < k)%nat.
Proof.
  intros Hnn Hsel Hx.
  set (ranked := merge_sort by_rank (indexed scores)).
  assert (Hperm : ranked ≡ₚ indexed scores) by apply merge_sort_Permutation.
  assert (Hsorted : StronglySorted by_rank ranked)
    by (apply StronglySorted_merge_sort; apply _).
  rewrite select_perm in Hsel. fold ranked in Hsel.
  apply elem_of_take in Hsel as (r & Hr & Hrk).
  rewrite <- (take_drop_middle ranked r (i, x) Hr) in Hsorted, Hperm.
  apply StronglySorted_app in Hsorted as (_ & _ & Htail).
  apply StronglySorted_cons in Htail as [Hafter _].
  rewrite <- (indexed_snd scores), <- (nonzero_count_perm _ _ Hperm).
  rewrite map_app, nonzero_count_app.
  assert (Hz : nonzero_count (map snd ((i, x) :: drop (S r) ranked)) = 0%nat).
  { apply nonzero_count_zero. cbn. constructor; [exact Hx|].
    apply Forall_map, Forall_forall. intros [j y] Hj. cbn.
    assert (Hy : 0 <= y).
    { rewrite Forall_forall in Hnn. apply Hnn.
      assert (Hin : (j, y) ∈ indexed scores).
      { rewrite <- Hperm. apply elem_of_app. right. right. exact Hj. }
      apply elem_of_indexed in Hin. eapply list_elem_of_lookup_2, Hin. }
    rewrite Forall_forall in Hafter. specialize (Hafter _ Hj).
    apply by_rank_spec in Hafter. cbn in Hafter. lra. }
  rewrite Hz.
  pose proof (nonzero_count_le (map snd (take r ranked))) as Hle.
  rewrite length_map, length_take in Hle. lia.
Qed.

(** ** Luhn scores *)

Lemma cluster_score_nonneg c : 0 <= cluster_score c.
Proof.
  destruct c as [|p c]; cbn -[Z.of_nat Nat.mul]; [lra|].
  unfold Qle. cbn -[Z.of_nat Nat.mul]. lia.
Qed.

Lemma Qmax_nonneg x y : 0 <= y -> 0 <= x -> 0 <= Qmax x y.
Proof. intros Hy Hx. unfold Qmax. now destruct (Qle_bool x y). Qed.

Lemma luhn_score_nonneg cfg top s : 0 <= luhn_score cfg top s.
Proof.
  unfold luhn_score.
  induction (clusters (luhn_cluster_gap cfg) (significant top s)) as [|c cs IH];
    cbn; [lra|].
  apply Qmax_nonneg; [exact IH | apply cluster_score_nonneg].
Qed.

Lemma luhn_scores_nonneg cfg d : Forall (fun y => 0 <= y) (luhn_scores cfg d).
Proof.
  unfold luhn_scores. apply Forall_map, Forall_forall.
  intros s _. apply luhn_score_nonneg.
Qed.

Lemma luhn_score_no_top_word cfg top s :
  significant top s = [] -> luhn_score cfg top s = 0.
Proof. intros H. unfold luhn_score. now rewrite H. Qed.

Lemma luhn_scores_lookup cfg d i s :
  d !! i = Some s ->
  luhn_scores cfg d !! i = Some (luhn_score cfg (topWords d (top_word_count cfg)) s).
Proof.
  intros H. unfold luhn_scores.
  pose proof (list_lookup_fmap (luhn_score cfg (topWords d (top_word_count cfg))) d i) as E.
  rewrite H in E. exact E.
Qed.

Lemma output_positions d chosen i :
  i ∈ map sel_position (output d chosen) -> exists x, (i, x) ∈ chosen.
Proof.
  unfold output. intros H. apply list_elem_of_fmap in H as (r & -> & Hr).
  apply list_elem_of_omap in Hr as ([j x] & Hj & Hr).
  destruct (d !! j) as [s|]; cbn in Hr; [|discriminate].
  injection Hr as <-. cbn. eauto.
Qed.

(** ** SumBasic *)

Lemma elem_of_distinct l w : w ∈ distinct l <-> w ∈ l.
Proof.
  induction l as [|x l IH]; cbn; [reflexivity|].
  rewrite !elem_of_cons, list_elem_of_filter, IH.
  destruct (decide (w = x)) as [->|Hne]; tauto.
Qed.

Lemma NoDup_distinct l : NoDup (distinct l).
Proof.
  induction l as [|x l IH]; cbn; constructor.
  - rewrite list_elem_of_filter. tauto.
  - now apply NoDup_filter.
Qed.

Lemma elem_of_words_of s w : w ∈ words_of s <-> w ∈ content_words s.
Proof. apply elem_of_distinct. Qed.

(** Squaring along a duplicate-free list of words squares each of them
    once and leaves every other entry alone. *)
Lemma square_words_lookup p ws w :
  NoDup ws ->
  square_words p ws !! w
  = if decide (w ∈ ws) then (fun x => x * x) <$> p !! w else p !! w.
Proof.
  unfold square_words. induction 1 as [|x ws Hx Hnd IH]; cbn [foldr].
  - destruct (decide (w ∈ [])) as [Hin|_]; [|reflexivity].
    now apply not_elem_of_nil in Hin.
  - destruct (decide (w = x)) as [->|Hne].
    + rewrite lookup_alter_eq, IH.
      destruct (decide (x ∈ ws)); [contradiction|].
      destruct (decide (x ∈ x :: ws)) as [_|Hn]; [reflexivity|].
      exfalso. apply Hn. left.
    + rewrite lookup_alter_ne by congruence. rewrite IH.
      destruct (decide (w ∈ ws)) as [Hin|Hin];
        destruct (decide (w ∈ x :: ws)) as [Hin'|Hin']; try reflexivity.
      * exfalso. apply Hin'. now right.
      * exfalso. apply elem_of_cons in Hin' as [?|?]; contradiction.
Qed.

Lemma p_of_square p ws w :
  NoDup ws -> w ∈ ws -> p_of (square_words p ws) w = p_of p w * p_of p w.
Proof.
  intros Hnd Hin. unfold p_of. rewrite square_words_lookup by assumption.
  destruct (decide (w ∈ ws)); [|contradiction].
  now destruct (p !! w).
Qed.

(** The average, through the sum and the count. *)
Lemma average_spec (xs : list Q) :
  (average xs * inject_Z (Z.of_nat (List.length xs)) == foldr Qplus 0 xs)%Q.
Proof.
  destruct xs as [|x xs]; [reflexivity|].
  unfold average, Qsum. field.
  unfold Qeq. cbn. lia.
Qed.

Lemma sb_score_spec (p : gmap string Q) (s : Sentence) :
  (sb_score p s * inject_Z (Z.of_nat (List.length (distinct (content_words s))))
   == foldr Qplus 0 (map (p_of p) (distinct (content_words s))))%Q /\
  (distinct (content_words s) = [] -> (sb_score p s == 0)%Q).
Proof.
  unfold sb_score, words_of. split.
  - rewrite <- (length_map (p_of p) (distinct (content_words s))).
    apply average_spec.
  - intros ->. reflexivity.
Qed.

Lemma best_None score cands : best score cands = None -> cands = [].
Proof.
  destruct cands as [|i rest]; cbn; [reflexivity|].
  destruct (best score rest); [|discriminate].
  now destruct (Qlt_le_dec _ _).
Qed.

(** The candidate that [best] returns has the highest score, and is the
    earliest of those that have it. *)
Lemma best_Some score cands i :
  StronglySorted lt cands ->
  best score cands = Some i ->
  i ∈ cands /\
  forall j, j ∈ cands ->
    score j <= score i /\ (score j == score i -> (i <= j)%nat).
Proof.
  intros Hsorted. revert i.
  induction Hsorted as [|c rest Hs IH Hlt]; intros i; cbn; [discriminate|].
  rewrite Forall_forall in Hlt.
  destruct (best score rest) as [b|] eqn:Hb.
  - destruct (IH b eq_refl) as [Hin Hmax].
    destruct (Qlt_le_dec (score c) (score b)) as [Hcb|Hcb]; intros [= <-].
    + split; [now right|]. intros j Hj.
      apply elem_of_cons in Hj as [->|Hj]; [split; lra|]. now apply Hmax.
    + split; [now left|]. intros j Hj.
      apply elem_of_cons in Hj as [->|Hj]; [split; [lra|lia]|].
      destruct (Hmax j Hj) as [Hle _]. split; [lra|].
      intros _. specialize (Hlt j Hj). lia.
  - intros [= <-]. apply best_None in Hb as ->.
    split; [now left|]. intros j Hj.
    apply list_elem_of_singleton in Hj as ->. split; [lra|lia].
Qed.

Lemma sb_init_ok d : sb_ok d (sb_init d).
Proof.
  split; cbn.
  - generalize 0%nat. induction (List.length d) as [|n IH]; intros a; cbn;
      constructor; [apply IH|].
    apply Forall_forall. intros j Hj. apply elem_of_seq in Hj. lia.
  - apply Forall_forall. intros j Hj. apply elem_of_seq in Hj. lia.
Qed.

Lemma StronglySorted_filter_lt (P : nat -> Prop) `{forall x, Decision (P x)} l :
  StronglySorted lt l -> StronglySorted lt (filter P l).
Proof.
  induction 1 as [|x l Hs IH Hx]; [constructor|].
  rewrite filter_cons. destruct (decide (P x)); [|exact IH].
  constructor; [exact IH|]. rewrite Forall_forall in *.
  intros y Hy. apply list_elem_of_filter in Hy as [_ Hy]. auto.
Qed.

Lemma sb_step_ok d st i st' :
  sb_ok d st -> sb_step d st = Some (i, st') -> sb_ok d st'.
Proof.
  intros [Hs Hb]. unfold sb_step.
  destruct (best _ _); [|discriminate]. intros [= <- <-]. split; cbn.
  - now apply StronglySorted_filter_lt.
  - rewrite Forall_forall in *. intros j Hj.
    apply list_elem_of_filter in Hj as [_ Hj]. auto.
Qed.

Lemma sb_trace_elem d k st0 st i st' :
  sb_ok d st0 ->
  (st, i, st') ∈ sb_trace d k st0 ->
  sb_ok d st /\ sb_step d st = Some (i, st').
Proof.
  revert st0. induction k as [|k IH]; intros st0 Hok; cbn.
  - intros Hin. now apply not_elem_of_nil in Hin.
  - destruct (sb_step d st0) as [[i0 st1]|] eqn:Hstep.
    + intros Hin. apply elem_of_cons in Hin as [[= -> -> ->]|Hin]; [auto|].
      eapply IH; [|exact Hin]. eapply sb_step_ok; eassumption.
    + intros Hin. now apply not_elem_of_nil in Hin.
Qed.

(** Consecutive entries of the trace are chained. *)
Lemma sb_trace_next d k st0 t e1 e2 :
  sb_trace d k st0 !! t = Some e1 ->
  sb_trace d k st0 !! S t = Some e2 ->
  fst (fst e2) = snd e1.
Proof.
  revert st0 t. induction k as [|k IH]; intros st0 t; cbn; [discriminate|].
  destruct (sb_step d st0) as [[i0 st1]|]; [|discriminate].
  destruct t as [|t]; cbn.
  - intros [= <-]. destruct k as [|k]; cbn; [discriminate|].
    destruct (sb_step d st1) as [[i1 st2]|]; [|discriminate].
    now intros [= <-].
  - apply IH.
Qed.

Lemma sb_trace_first d k st0 e :
  sb_trace d k st0 !! 0%nat = Some e -> fst (fst e) = st0.
Proof.
  destruct k as [|k]; cbn; [discriminate|].
  destruct (sb_step d st0) as [[i0 st1]|]; [|discriminate].
  now intros [= <-].
Qed.

(** One iteration, spelled out. *)
Lemma sb_step_spec d st i st' :
  sb_ok d st ->
  sb_step d st = Some (i, st') ->
  exists s,
    d !! i = Some s /\
    i ∈ sb_remaining st /\
    (forall j s', j ∈ sb_remaining st -> d !! j = Some s' ->
       sb_score (sb_prob st) s' <= sb_score (sb_prob st) s /\
       (sb_score (sb_prob st) s' == sb_score (sb_prob st) s -> (i <= j)%nat)) /\
    (forall w, w ∈ content_words s ->
       p_of (sb_prob st') w = p_of (sb_prob st) w * p_of (sb_prob st) w) /\
    (forall w, w ∉ content_words s -> sb_prob st' !! w = sb_prob st !! w) /\
    sb_chosen st' = (sb_chosen st ++ [i])%list /\
    sb_remaining st' = filter (fun j => j ≠ i) (sb_remaining st).
Proof.
  intros [Hs Hb]. unfold sb_step.
  destruct (best _ _) as [b|] eqn:Hbest; [|discriminate].
  intros [= <- <-].
  destruct (best_Some _ _ _ Hs Hbest) as [Hin Hmax].
  rewrite Forall_forall in Hb.
  destruct (lookup_lt_is_Some_2 d b (Hb b Hin)) as [s Hds].
  exists s. rewrite Hds. cbn.
  split; [reflexivity|]. split; [exact Hin|]. split; [|split; [|split]].
  - intros j s' Hj Hdj. destruct (Hmax j Hj) as [Hle Hfirst].
    unfold sb_score_at in Hle, Hfirst. rewrite Hdj, Hds in Hle, Hfirst.
    cbn in Hle, Hfirst. auto.
  - intros w Hw. apply p_of_square; [apply NoDup_distinct|].
    now apply elem_of_words_of.
  - intros w Hw. rewrite square_words_lookup by apply NoDup_distinct.
    destruct (decide (w ∈ words_of s)) as [Hin'|_]; [|reflexivity].
    now apply elem_of_words_of in Hin'.
  - auto.
Qed.

(** ** The power iteration *)

Section PowerFacts.
Context {num : Type} `{Arith num}.
Variables (d eps : num) (M : list (list num)).

#[local] Abbreviation settles := (settles d eps M).

Lemma iter_shift (n : nat) (p : list num) :
  Nat.iter n (next d M) (next d M p) = Nat.iter (S n) (next d M) p.
Proof. symmetry. apply Nat.iter_succ_r. Qed.

Lemma settles_shift (p : list num) (s : nat) :
  settles p (S s) = settles (next d M p) s.
Proof.
  unfold settles. rewrite (iter_shift (S s)), (iter_shift s). reflexivity.
Qed.

Lemma power_loop_spec fuel t p :
  let r := power_loop d eps M fuel t p in
  exists n,
    (n <= fuel)%nat /\
    rank_iterations r = (t + n)%nat /\
    rank_scores r = Nat.iter n (next d M) p /\
    (forall s, (S s < n)%nat -> settles p s = false) /\
    (rank_converged r = true -> exists s, n = S s /\ settles p s = true) /\
    (rank_converged r = false ->
       n = fuel /\ forall s, (s < n)%nat -> settles p s = false).
Proof.
  revert t p. induction fuel as [|fuel IH]; intros t p; cbn zeta.
  - exists 0%nat. cbn.
    split; [lia|]. split; [lia|]. split; [reflexivity|].
    split; [intros; lia|]. split; [discriminate|].
    intros _. split; [reflexivity|intros; lia].
  - cbn [power_loop].
    destruct (below (l1 (next d M p) p) eps) eqn:Hb.
    + exists 1%nat. cbn.
      split; [lia|]. split; [lia|]. split; [reflexivity|].
      split; [intros; lia|]. split; [|discriminate].
      intros _. exists 0%nat. split; [reflexivity|]. exact Hb.
    + destruct (IH (S t) (next d M p))
        as (n & Hn & Hit & Hsc & Hearly & Hconv & Hcap).
      exists (S n).
      split; [lia|]. split; [rewrite Hit; lia|].
      split; [rewrite Hsc; apply iter_shift|].
      split; [|split].
      * intros [|s] Hs; [exact Hb|].
        rewrite settles_shift. apply Hearly. lia.
      * intros Hc. destruct (Hconv Hc) as (s & -> & Hset).
        exists (S s). split; [reflexivity|].
        rewrite settles_shift. exact Hset.
      * intros Hc. destruct (Hcap Hc) as [-> Hno]. split; [reflexivity|].
        intros [|s] Hs; [exact Hb|].
        rewrite settles_shift. apply Hno. lia.
Qed.

End PowerFacts.

(** ** The strategies on the sample documents *)

Example topWords_cats :
  topWords cats 100 = ["cat"; "sat"; "mat"; "dogs"; "bark"; "loudly"].
Proof. reflexivity. Qed.

Example luhn_scores_cats :
  luhn_scores default_config cats = [4 # 2; 9 # 5; 9 # 3; 0].
Proof. reflexivity. Qed.

Example luhn_select_cats_2 :
  map fst (luhn_select default_config cats 2) = [0%nat; 2%nat].
Proof. reflexivity. Qed.

Example sumbasic_choice_cats : sumbasic_choice cats 3 = [0%nat; 2%nat; 1%nat].
Proof. vm_compute. reflexivity. Qed.

Example sumbasic_summarize_cats : sumbasic_summarize cats 2 = [0%nat; 2%nat].
Proof. vm_compute. reflexivity. Qed.

Example graph_rank_chain_capped :
  rank_iterations (graph_rank three_rounds chain) = 3%nat /\
  rank_converged (graph_rank three_rounds chain) = false /\
  rank_scores (graph_rank three_rounds chain) = [163 # 384; 22147 # 24000; 163 # 384].
Proof. vm_compute. repeat split. Qed.

Example graph_rank_chain_default :
  rank_iterations (graph_rank default_config chain) = 53%nat /\
  rank_converged (graph_rank default_config chain) = true.
Proof. vm_compute. split; reflexivity. Qed.

End CoreFacts.
(** * The claims about the entry points *)

Section EntryPointClaims.
Context `{P : Packages}.

(** C1, as amended.  [sumySummarize] takes a file name, a language and a
    sentence count and no algorithm argument.  When the file is readable and
    the [sumy] calls return, it returns one dictionary that holds, under the
    name of each of the six algorithms (Luhn, LSA, TextRank, LexRank,
    SumBasic, KL), the sentences that this summarizer returned, as plain
    strings in the order the summarizer gave them; the file system is left
    as it was. *)
Theorem sumySummarize_runs_every_algorithm
    w filename language k text tok st sw doc (out : algorithm -> list sentence) :
  files w !! filename = Some text ->
  Tokenizer language = inr tok ->
  Stemmer language = inr st ->
  get_stop_words language = inr sw ->
  parse_document text tok = inr doc ->
  (forall a, summarizer_call a st (Some sw) doc k = inr (out a)) ->
  exists summaries w',
    sumySummarize filename language k w = (Ok summaries, w') /\
    files w' = files w /\
    dom summaries = list_to_set (map algorithm_name algorithms) /\
    forall a, summaries !! algorithm_name a = Some (map str (out a)).
Proof.
  intros Hf Htok Hst Hsw Hdoc Hcall.
  exists (all_summaries out), (log (EvRead filename) w).
  split; [eapply sumySummarize_run; eauto|].
  split; [reflexivity|].
  split; [apply all_summaries_dom | apply all_summaries_lookup].
Qed.

(** C2, as amended.  The file checks nothing itself.  A menu choice other
    than 1, 2, 3 or 4 makes the script print [Wrong choice] and end normally,
    with no exception and no file touched; and [sumySummarize] hands
    [num_sents] and the document to [sumy] unchecked, so that when it raises,
    the exception is the one of opening a missing input file or one that a
    [sumy] call raised, whatever [num_sents] is. *)
Theorem entry_points_check_nothing :
  (forall w line rest c,
      keyboard w = line :: rest -> int line = inr c -> c < 1 \/ 4 < c ->
      exists w', main w = (Ok tt, w') /\
                 files w' = files w /\
                 console w' = (console w ++ menu ++ ["Wrong choice"])%list) /\
  (forall w filename language k e w',
      sumySummarize filename language k w = (Raise e, w') ->
      (e = FileNotFoundError filename /\ files w !! filename = None) \/
      raised_by_sumy e language k).
Proof.
  split.
  - intros w line rest c Hk Hi Hc. eexists. split.
    + eapply main_wrong_choice; eassumption.
    + split; reflexivity.
  - intros w filename language k e w'. apply sumySummarize_Raise.
Qed.

(** C8, as amended.  [sumySummarize], [gensimSummarize] and [pyteasSummarize]
    read their input file and write nothing: files, console and keyboard are
    left as they were, the journal grows by read entries only, the result
    depends on the file system alone, and a second call on the world the
    first one left returns the same result.  [pytrankSummarize] is not pure:
    on a readable input it leaves behind the JSON file of [createJSON] and
    [o1.json], whatever the packages do afterwards. *)
Theorem effects_of_the_calls :
  (forall filename language title k fraction,
      reader (sumySummarize filename language k) /\
      reader (gensimSummarize filename fraction) /\
      reader (pyteasSummarize filename title k)) /\
  (forall w filename language title k fraction,
      fst (sumySummarize filename language k (snd (sumySummarize filename language k w)))
        = fst (sumySummarize filename language k w) /\
      fst (gensimSummarize filename fraction (snd (gensimSummarize filename fraction w)))
        = fst (gensimSummarize filename fraction w) /\
      fst (pyteasSummarize filename title k (snd (pyteasSummarize filename title k w)))
        = fst (pyteasSummarize filename title k w)) /\
  (forall w filename text,
      files w !! filename = Some text ->
      let w' := snd (pytrankSummarize filename w) in
      is_Some (files w' !! (before_first dot filename +:+ ".json")) /\
      is_Some (files w' !! "o1.json") /\
      EvCreate "o1.json" ∈ journal w').
Proof.
  split; [|split].
  - intros. split; [|split].
    + apply reader_sumySummarize.
    + apply reader_gensimSummarize.
    + apply reader_pyteasSummarize.
  - intros. split; [|split].
    + apply reader_again, reader_sumySummarize.
    + apply reader_again, reader_gensimSummarize.
    + apply reader_again, reader_pyteasSummarize.
  - intros w filename text Hf. eapply pytrankSummarize_creates_stage1; eassumption.
Qed.

(** C9.  For an input file name whose file can be read, [createJSON] writes
    the file named by the portion of the name before its first dot followed
    by [.json]; the file holds the serialisation of the object with [id]
    equal to 707 and [text] equal to the contents of the input with every
    double quote removed; and that new name is returned. *)
Theorem createJSON_writes_json w filename text :
  files w !! filename = Some text ->
  let jsonFile := before_first dot filename +:+ ".json" in
  let object := PDict [("id", PInt 707); ("text", PStr (without dquote text))] in
  exists w',
    createJSON filename w = (Ok jsonFile, w') /\
    files w' = <[jsonFile := json_dumps object]> (files w).
Proof.
  intros Hf jsonFile object.
  pose proof (createJSON_run w filename text Hf) as Hrun. cbv zeta in Hrun.
  eexists. split; [exact Hrun|].
  cbn. subst object. unfold without.
  now rewrite <- re_sub_del_filter, string_of_list_ascii_of_string.
Qed.

(** C10, as amended.  On a readable file, when [Summarize] returns,
    [pyteasSummarize] returns one string.  For [num_sents >= 0] it is the
    first [num_sents] sentences of what [Summarize] returned (all of them
    when there are fewer), joined by single spaces, in the order returned.
    For a negative [num_sents] it is, by the slicing rule, all but the last
    [- num_sents] sentences. *)
Theorem pyteasSummarize_truncates w filename title num_sents text summary :
  files w !! filename = Some text ->
  Summarize title text = inr summary ->
  exists sents,
    fst (pyteasSummarize filename title num_sents w) = Ok sents /\
    (0 <= num_sents ->
       sents = join " " (map teaser_str (take (Z.to_nat num_sents) summary))) /\
    (num_sents < 0 ->
       sents = join " " (map teaser_str
                 (take (List.length summary - Z.to_nat (- num_sents)) summary))).
Proof.
  intros Hf Hs. eexists. split.
  - erewrite pyteasSummarize_run by eassumption. reflexivity.
  - unfold slice_to. split; intros Hn.
    + destruct (Z.leb_spec 0 num_sents); [reflexivity|lia].
    + destruct (Z.leb_spec 0 num_sents); [lia|].
      do 3 f_equal. lia.
Qed.

End EntryPointClaims.
(** ** The entry points on the sample file *)

Module Sample.
Import Reference.

(** C1 at the sample: every algorithm's entry is there. *)
Lemma sumySummarize_on_sample :
  exists summaries w',
    sumySummarize TEXT_FILE LANGUAGE 2 (world0 []) = (Ok summaries, w') /\
    files w' = files (world0 []) /\
    dom summaries = list_to_set (map algorithm_name algorithms) /\
    forall a, summaries !! algorithm_name a = Some (map str (leading 2)).
Proof.
  apply (sumySummarize_runs_every_algorithm (P := packages) (world0 []) TEXT_FILE LANGUAGE 2
           sample LANGUAGE LANGUAGE ["the"; "a"; "on"] (sentences sample)
           (fun _ => leading 2)).
  - reflexivity.
  - reflexivity.
  - reflexivity.
  - reflexivity.
  - reflexivity.
  - intros a. reflexivity.
Defined.

(** C1 as the specification words it fails.  Called on the sample file with
    [k = 2], [sumySummarize] returns a dictionary with the entries of Luhn
    and of LSA at once, each a list of plain strings: not the result of one
    strategy. *)
Lemma sumySummarize_not_one_strategy :
  (exists summaries w',
      sumySummarize TEXT_FILE LANGUAGE 2 (world0 []) = (Ok summaries, w') /\
      summaries !! "Luhn" = Some (leading 2) /\
      summaries !! "LSA" = Some (leading 2)) /\
  ~ one_strategy_result (P := packages).
Proof.
  assert (Hrun : sumySummarize TEXT_FILE LANGUAGE 2 (world0 [])
                 = (Ok (all_summaries (P := packages) (fun _ => leading 2)),
                    log (EvRead TEXT_FILE) (world0 []))).
  { apply (sumySummarize_run (P := packages) (world0 []) TEXT_FILE LANGUAGE 2
             sample LANGUAGE LANGUAGE ["the"; "a"; "on"] (sentences sample));
      intros; reflexivity. }
  split.
  - eexists _, _. split; [exact Hrun|]. split; reflexivity.
  - intros H.
    destruct (H (world0 []) TEXT_FILE LANGUAGE 2 _ _ ltac:(lia) Hrun) as [a Ha].
    assert (H1 : "Luhn" ∈ dom (all_summaries (P := packages) (fun _ => leading 2))).
    { apply elem_of_dom. rewrite (all_summaries_lookup (P := packages) _ Luhn). eauto. }
    assert (H2 : "LSA" ∈ dom (all_summaries (P := packages) (fun _ => leading 2))).
    { apply elem_of_dom. rewrite (all_summaries_lookup (P := packages) _ LSA). eauto. }
    rewrite Ha in H1, H2.
    apply elem_of_singleton in H1, H2. congruence.
Qed.

(** C2 at the sample: choice 5 ends normally; a missing file raises the
    exception of [open]. *)
Lemma entry_points_on_sample :
  (exists w', main (world0 ["5"]) = (Ok tt, w') /\
              files w' = files (world0 ["5"]) /\
              console w' = (menu ++ ["Wrong choice"])%list) /\
  (FileNotFoundError "missing.txt" = FileNotFoundError "missing.txt" /\
   files (world0 []) !! "missing.txt" = None \/
   raised_by_sumy (FileNotFoundError "missing.txt") LANGUAGE 0).
Proof.
  split.
  - apply (proj1 (entry_points_check_nothing (P := packages)) (world0 ["5"]) "5" [] 5).
    + reflexivity.
    + reflexivity.
    + lia.
  - apply (proj2 (entry_points_check_nothing (P := packages)) (world0 []) "missing.txt" LANGUAGE 0
             (FileNotFoundError "missing.txt") (world0 [])).
    reflexivity.
Defined.

(** C2 as the specification words it fails.  With the choice 5 typed, which
    names no algorithm, the script prints [Wrong choice] and returns
    normally; and with [k = 0] [sumySummarize] returns a dictionary (here
    with what the summarizers of the instance give). *)
Lemma main_does_not_reject :
  fst (main (world0 ["5"])) = Ok tt /\
  console (snd (main (world0 ["5"]))) = (menu ++ ["Wrong choice"])%list /\
  (exists summaries, fst (sumySummarize TEXT_FILE LANGUAGE 0 (world0 [])) = Ok summaries) /\
  ~ facade_rejects (P := packages).
Proof.
  assert (Hrun : main (world0 ["5"])
                 = (Ok tt,
                    World (files (world0 ["5"])) (menu ++ ["Wrong choice"]) []
                      (map EvPrint menu
                         ++ [EvInput "Enter your choice: "; EvPrint "Wrong choice"]))).
  { apply (main_wrong_choice (P := packages) (world0 ["5"]) "5" [] 5);
      [reflexivity | reflexivity | lia]. }
  split; [now rewrite Hrun|]. split; [now rewrite Hrun|]. split.
  - eexists.
    rewrite (sumySummarize_run (P := packages) (world0 []) TEXT_FILE LANGUAGE 0
               sample LANGUAGE LANGUAGE ["the"; "a"; "on"] (sentences sample)
               (fun _ => leading 0)); intros; reflexivity.
  - intros [_ H].
    destruct (H (world0 ["5"]) "5" [] 5) as (e & w' & He).
    + reflexivity.
    + reflexivity.
    + lia.
    + rewrite Hrun in He. discriminate.
Qed.

(** C8 at the sample: [pytrankSummarize] leaves its files behind. *)
Lemma pytrankSummarize_on_sample :
  let w' := snd (pytrankSummarize TEXT_FILE (world0 [])) in
  is_Some (files w' !! "sample_text.json") /\
  is_Some (files w' !! "o1.json") /\
  EvCreate "o1.json" ∈ journal w'.
Proof.
  apply (proj2 (proj2 (effects_of_the_calls (P := packages))) (world0 []) TEXT_FILE sample).
  reflexivity.
Defined.

(** C8 as the specification words it fails.  The sample world has the one
    file [sample_text.txt]; after [createJSON] it also has
    [sample_text.json], and after [pytrankSummarize] also [o1.json]. *)
Lemma pytrankSummarize_not_pure :
  files (world0 []) !! "o1.json" = None /\
  is_Some (files (snd (pytrankSummarize TEXT_FILE (world0 []))) !! "o1.json") /\
  is_Some (files (snd (createJSON TEXT_FILE (world0 []))) !! "sample_text.json") /\
  ~ calls_are_pure (P := packages).
Proof.
  destruct (pytrankSummarize_creates_stage1 (P := packages) (world0 []) TEXT_FILE sample eq_refl)
    as (_ & Hb & _).
  split; [reflexivity|]. split; [exact Hb|]. split.
  - rewrite (createJSON_run (P := packages) (world0 []) TEXT_FILE sample eq_refl).
    cbn. rewrite lookup_insert_eq. eauto.
  - intros H.
    specialize (H (world0 []) TEXT_FILE LANGUAGE "Topic Modelling" 2 tt).
    rewrite !Forall_cons in H. destruct H as (_ & _ & _ & [Hf _] & _).
    destruct Hb as [body Hb]. rewrite Hf in Hb. discriminate.
Qed.

(** C9 at the sample. *)
Lemma createJSON_on_sample :
  exists w',
    createJSON TEXT_FILE (world0 []) = (Ok "sample_text.json", w') /\
    files w'
    = <["sample_text.json" :=
          json_dumps (PDict [("id", PInt 707);
                             ("text", PStr "The cat sat. The cat sat on the mat. Dogs bark loudly.")])]>
        (files (world0 [])).
Proof.
  apply (createJSON_writes_json (P := packages) (world0 []) TEXT_FILE sample). reflexivity.
Defined.

(** C10 at the sample, with two sentences asked for. *)
Lemma pyteasSummarize_on_sample :
  exists sents,
    fst (pyteasSummarize TEXT_FILE "Topic Modelling" 2 (world0 [])) = Ok sents /\
    (0 <= 2 -> sents = join " " (map teaser_str (take (Z.to_nat 2) (sentences sample)))) /\
    (2 < 0 -> sents = join " " (map teaser_str
                 (take (List.length (sentences sample) - Z.to_nat (- 2)) (sentences sample)))).
Proof.
  apply (pyteasSummarize_truncates (P := packages) (world0 []) TEXT_FILE "Topic Modelling" 2 sample).
  - reflexivity.
  - reflexivity.
Defined.

(** C10 as the claim words it fails.  [Summarize] returns the three
    sentences of the sample; asked for [-1] sentences, [pyteasSummarize]
    returns the first two of them, joined. *)
Lemma pyteasSummarize_negative :
  Summarize "Topic Modelling" sample = inr (sentences sample) /\
  List.length (sentences sample) = 3%nat /\
  fst (pyteasSummarize TEXT_FILE "Topic Modelling" (-1) (world0 []))
  = Ok (join " " (take 2 (sentences sample))) /\
  ~ returns_first_sentences (P := packages).
Proof.
  split; [reflexivity|]. split; [reflexivity|]. split; [reflexivity|].
  intros H.
  specialize (H (world0 []) TEXT_FILE "Topic Modelling" (-1) sample (sentences sample)
                eq_refl eq_refl).
  vm_compute in H. discriminate.
Qed.

End Sample.

(** * The claims about the scoring strategies *)
Module CoreClaims.
Import Core CoreFacts.

#[local] Open Scope Q_scope.

(** C4.  In every iteration of SumBasic (iteration [t] of the run on [d],
    with the table [sb_prob st] before it and [sb_prob st'] after it) the
    score of each remaining sentence is the average of the current [p(w)]
    over its distinct words that are not stop words (the score times the
    number of these words is the sum of their [p(w)], and the score is 0
    when there is none), the sentence chosen is
    one of highest score and the earliest of these, and after the choice
    [p(w)] has become its square for every word of the chosen sentence and
    is unchanged for every other word.  The first iteration starts from the
    initial table and each later one from the table the previous one left. *)
Theorem sumbasic_iteration d k t st i st' :
  sb_trace d k (sb_init d) !! t = Some (st, i, st') ->
  (t = 0%nat -> st = sb_init d) /\
  (forall e, sb_trace d k (sb_init d) !! S t = Some e -> fst (fst e) = st') /\
  exists s,
    d !! i = Some s /\
    i ∈ sb_remaining st /\
    (forall j s', j ∈ sb_remaining st -> d !! j = Some s' ->
       sb_score (sb_prob st) s'
           * inject_Z (Z.of_nat (List.length (distinct (content_words s'))))
         == foldr Qplus 0 (map (p_of (sb_prob st)) (distinct (content_words s'))) /\
       (distinct (content_words s') = [] -> sb_score (sb_prob st) s' == 0) /\
       sb_score (sb_prob st) s' <= sb_score (sb_prob st) s /\
       (sb_score (sb_prob st) s' == sb_score (sb_prob st) s -> (i <= j)%nat)) /\
    (forall w, w ∈ content_words s ->
       p_of (sb_prob st') w = p_of (sb_prob st) w * p_of (sb_prob st) w) /\
    (forall w, w ∉ content_words s -> sb_prob st' !! w = sb_prob st !! w).
Proof.
  intros Ht. split; [|split].
  - intros ->. now apply sb_trace_first in Ht.
  - intros e He. apply (sb_trace_next _ _ _ _ _ _ Ht He).
  - destruct (sb_trace_elem d k (sb_init d) st i st') as [Hok Hstep].
    + apply sb_init_ok.
    + eapply list_elem_of_lookup_2, Ht.
    + destruct (sb_step_spec d st i st' Hok Hstep)
        as (s & Hs & Hin & Hbest & Hsq & Hkeep & _).
      exists s. split; [exact Hs|]. split; [exact Hin|].
      split; [|split; assumption].
      intros j s' Hj Hdj.
      destruct (sb_score_spec (sb_prob st) s') as [Hsum Hnone].
      split; [exact Hsum|]. split; [exact Hnone|]. now apply Hbest.
Qed.

(** C6.  The power iteration of GraphRank ends after at most
    [max_iterations] steps and always returns a vector: the iterate
    [p_n] of [p_(t+1) = (1 - d) + d * M^T p_t] from the uniform vector,
    where [n] is the first step whose L1 change is below epsilon, or the cap
    when there is no such step before it; at the cap the last iterate is
    returned with the flag [rank_converged] off, not an error.  The defaults
    are d = 0.85, epsilon = 1e-4 and a cap of 100. *)
Theorem graph_rank_terminates (cfg : Config) (M : list (list Q)) :
  let r := graph_rank cfg M in
  let start := uniform (List.length M) in
  let step := next (damping_factor cfg) M in
  let settled := settles (damping_factor cfg) (convergence_epsilon cfg) M start in
  (rank_iterations r <= max_iterations cfg)%nat /\
  rank_scores r = Nat.iter (rank_iterations r) step start /\
  (forall s, (S s < rank_iterations r)%nat -> settled s = false) /\
  (rank_converged r = true ->
     exists s, rank_iterations r = S s /\ settled s = true) /\
  (rank_converged r = false ->
     rank_iterations r = max_iterations cfg /\
     forall s, (s < rank_iterations r)%nat -> settled s = false) /\
  (damping_factor default_config = 85 # 100 /\
   convergence_epsilon default_config = 1 # 10000 /\
   max_iterations default_config = 100%nat).
Proof.
  cbn zeta. unfold graph_rank, power_iteration.
  destruct (power_loop_spec (damping_factor cfg) (convergence_epsilon cfg) M
              (max_iterations cfg) 0 (uniform (List.length M)))
    as (n & Hn & Hit & Hsc & Hearly & Hconv & Hcap).
  cbn in Hit. rewrite Hit.
  split; [exact Hn|]. split; [exact Hsc|]. split; [exact Hearly|].
  split; [exact Hconv|]. split; [|repeat split].
  intros Hc. destruct (Hcap Hc) as [-> Hno]. auto.
Qed.

(** C7.  Under Luhn scoring a sentence that contains no top word has score
    0, and it is in the output only when [k] exceeds the number of sentences
    whose score is not 0. *)
Theorem luhn_zero_top_words cfg d k i s :
  d !! i = Some s ->
  top_words_in cfg d s = 0%nat ->
  luhn_scores cfg d !! i = Some 0 /\
  (i ∈ map sel_position (luhn_summarize cfg d k) ->
   (nonzero_count (luhn_scores cfg d) < k)%nat).
Proof.
  intros Hs Htop.
  assert (Hscore : luhn_scores cfg d !! i = Some 0).
  { rewrite (luhn_scores_lookup cfg d i s Hs). f_equal.
    apply luhn_score_no_top_word.
    unfold top_words_in in Htop. now apply length_zero_iff_nil in Htop. }
  split; [exact Hscore|].
  intros Hout. apply output_positions in Hout as [x Hx].
  unfold luhn_select in Hx.
  pose proof (select_subset _ _ _ Hx) as Hin. apply elem_of_indexed in Hin.
  rewrite Hscore in Hin. injection Hin as <-.
  eapply select_zero_last; [apply luhn_scores_nonneg | exact Hx | reflexivity].
Qed.

(** *** The claims on the sample documents *)

(** C4 on the four sentences: the first iteration chooses sentence 0 and
    squares the probabilities of its words. *)
Lemma sumbasic_on_cats :
  let st := sb_init cats in
  let st' := mkSb (square_words (initial_prob cats) ["cat"; "sat"])
                  [1%nat; 2%nat; 3%nat] [0%nat] in
  (0%nat = 0%nat -> st = sb_init cats) /\
  (forall e, sb_trace cats 3 (sb_init cats) !! 1%nat = Some e -> fst (fst e) = st') /\
  exists s,
    cats !! 0%nat = Some s /\
    0%nat ∈ sb_remaining st /\
    (forall j s', j ∈ sb_remaining st -> cats !! j = Some s' ->
       sb_score (sb_prob st) s'
           * inject_Z (Z.of_nat (List.length (distinct (content_words s'))))
         == foldr Qplus 0 (map (p_of (sb_prob st)) (distinct (content_words s'))) /\
       (distinct (content_words s') = [] -> sb_score (sb_prob st) s' == 0) /\
       sb_score (sb_prob st) s' <= sb_score (sb_prob st) s /\
       (sb_score (sb_prob st) s' == sb_score (sb_prob st) s -> (0 <= j)%nat)) /\
    (forall w, w ∈ content_words s ->
       p_of (sb_prob st') w = p_of (sb_prob st) w * p_of (sb_prob st) w) /\
    (forall w, w ∉ content_words s -> sb_prob st' !! w = sb_prob st !! w).
Proof.
  apply (sumbasic_iteration cats 3 0 (sb_init cats) 0
           (mkSb (square_words (initial_prob cats) ["cat"; "sat"])
                 [1%nat; 2%nat; 3%nat] [0%nat])).
  reflexivity.
Defined.

(** C6 on the chain of three sentences, with a cap of three steps. *)
Lemma graph_rank_on_chain :
  let r := graph_rank three_rounds chain in
  let start := uniform (List.length chain) in
  let step := next (damping_factor three_rounds) chain in
  let settled :=
    settles (damping_factor three_rounds) (convergence_epsilon three_rounds) chain start in
  (rank_iterations r <= max_iterations three_rounds)%nat /\
  rank_scores r = Nat.iter (rank_iterations r) step start /\
  (forall s, (S s < rank_iterations r)%nat -> settled s = false) /\
  (rank_converged r = true ->
     exists s, rank_iterations r = S s /\ settled s = true) /\
  (rank_converged r = false ->
     rank_iterations r = max_iterations three_rounds /\
     forall s, (s < rank_iterations r)%nat -> settled s = false) /\
  (damping_factor default_config = 85 # 100 /\
   convergence_epsilon default_config = 1 # 10000 /\
   max_iterations default_config = 100%nat).
Proof. exact (graph_rank_terminates three_rounds chain). Defined.

(** C7 on the four sentences: the last one has no top word, and is in the
    output of [k = 4]. *)
Lemma luhn_on_cats :
  luhn_scores default_config cats !! 3%nat = Some 0 /\
  (3%nat ∈ map sel_position (luhn_summarize default_config cats 4) ->
   (nonzero_count (luhn_scores default_config cats) < 4)%nat).
Proof.
  apply (luhn_zero_top_words default_config cats 4 3
           (mkSentence "On the." [stop "on"; stop "the"])).
  - reflexivity.
  - reflexivity.
Defined.

End CoreClaims.

(** * More facts about the entry points *)

(** ** Strings *)

Lemma append_cons a s t : String a s +:+ t = String a (s +:+ t).
Proof. reflexivity. Qed.

Lemma append_nil_l s : EmptyString +:+ s = s.
Proof. reflexivity. Qed.

Lemma append_nil_r s : s +:+ EmptyString = s.
Proof.
  induction s as [|a s IH]; [reflexivity|]. rewrite append_cons. now f_equal.
Qed.

Lemma append_assoc s t u : (s +:+ t) +:+ u = s +:+ (t +:+ u).
Proof.
  induction s as [|a s IH]; [reflexivity|]. rewrite !append_cons. now f_equal.
Qed.

Lemma before_first_append c stem rest :
  ~ occurs c stem -> before_first c (stem +:+ String c rest) = stem.
Proof.
  induction stem as [|a stem IH]; intros Hfree.
  - rewrite append_nil_l. cbn. now rewrite Ascii.eqb_refl.
  - rewrite append_cons. cbn in *.
    destruct (Ascii.eqb_spec a c) as [->|_]; [tauto|].
    f_equal. apply IH. tauto.
Qed.

Lemma before_first_whole c s : ~ occurs c s -> before_first c s = s.
Proof.
  induction s as [|a s IH]; intros Hfree; [reflexivity|]. cbn in *.
  destruct (Ascii.eqb_spec a c) as [->|_]; [tauto|]. f_equal. apply IH. tauto.
Qed.

Lemma re_sub_del_without c s : re_sub_del c s = without c s.
Proof.
  unfold without. now rewrite <- re_sub_del_filter, string_of_list_ascii_of_string.
Qed.

Lemma re_sub_del_id c s : ~ occurs c s -> re_sub_del c s = s.
Proof.
  induction s as [|a s IH]; intros Hfree; [reflexivity|]. cbn in *.
  destruct (Ascii.eqb_spec a c) as [->|_]; [tauto|]. f_equal. apply IH. tauto.
Qed.

Lemma re_sub_del_length c s :
  (String.length (re_sub_del c s) <= String.length s)%nat.
Proof.
  induction s as [|a s IH]; cbn; [lia|].
  destruct (Ascii.eqb a c); cbn; lia.
Qed.

(** Joining a list that continues: the join of the beginning comes first. *)
Lemma join_app_begins sep (l1 l2 : list string) :
  begins (join sep l1) (join sep (l1 ++ l2)).
Proof.
  induction l1 as [|x l1 IH].
  - exists (join sep l2). reflexivity.
  - destruct l1 as [|y l1].
    + destruct l2 as [|z l2]; cbn.
      * exists EmptyString. now rewrite append_nil_r.
      * exists (sep +:+ join sep (z :: l2)). reflexivity.
    + destruct IH as [rest IH].
      exists rest. change (join sep ((x :: y :: l1) ++ l2))
        with (x +:+ sep +:+ join sep ((y :: l1) ++ l2)).
      rewrite IH. change (join sep (x :: y :: l1)) with (x +:+ sep +:+ join sep (y :: l1)).
      now rewrite !append_assoc.
Qed.

Lemma slice_to_all {A} (l : list A) n :
  Z.of_nat (List.length l) <= n -> slice_to l n = l.
Proof.
  intros Hn. unfold slice_to. destruct (Z.leb_spec 0 n); [|lia].
  apply take_ge. lia.
Qed.

Lemma slice_to_none {A} (l : list A) n :
  n = 0 \/ n <= - Z.of_nat (List.length l) -> slice_to l n = [].
Proof.
  intros Hn. unfold slice_to. destruct (Z.leb_spec 0 n).
  - assert (n = 0) as -> by lia. reflexivity.
  - replace (Z.to_nat (Z.of_nat (List.length l) + n)) with 0%nat by lia. reflexivity.
Qed.

Section MoreSourceFacts.
Context `{P : Packages}.

Lemma gensimSummarize_present w filename fraction text :
  files w !! filename = Some text ->
  gensimSummarize filename fraction w
  = (match summarize text fraction with inr s => Ok s | inl e => Raise e end,
     log (EvRead filename) w).
Proof.
  intros Hf.
  unfold gensimSummarize, open, read, close, mbind, M_bind, bind, mret, M_ret, ret.
  rewrite Hf. cbn. rewrite Hf. cbn. now destruct (summarize text fraction).
Qed.

Lemma gensimSummarize_missing w filename fraction :
  files w !! filename = None ->
  gensimSummarize filename fraction w = (Raise (FileNotFoundError filename), w).
Proof.
  intros Hf. unfold gensimSummarize, open, mbind, M_bind, bind. now rewrite Hf.
Qed.

Lemma pyteasSummarize_missing w filename title k :
  files w !! filename = None ->
  pyteasSummarize filename title k w = (Raise (FileNotFoundError filename), w).
Proof.
  intros Hf. unfold pyteasSummarize, open, mbind, M_bind, bind. now rewrite Hf.
Qed.

Lemma pyteasSummarize_raises w filename title k text e :
  files w !! filename = Some text ->
  Summarize title text = inl e ->
  pyteasSummarize filename title k w = (Raise e, log (EvRead filename) w).
Proof.
  intros Hf Hs.
  unfold pyteasSummarize, open, read, close, mbind, M_bind, bind, mret, M_ret, ret.
  rewrite Hf. cbn. rewrite Hf. cbn. now rewrite Hs.
Qed.

(** The first lines of [sumySummarize], up to the stemmer. *)
Lemma sumySummarize_start w filename language k text tok st :
  Tokenizer language = inr tok ->
  files w !! filename = Some text ->
  Stemmer language = inr st ->
  sumySummarize filename language k w
  = ((r1 ← getSummary (Parser text tok) language k (new_summarizer Luhn st);
      r2 ← getSummary (Parser text tok) language k (new_summarizer LSA st);
      r3 ← getSummary (Parser text tok) language k (new_summarizer TextRank st);
      r4 ← getSummary (Parser text tok) language k (new_summarizer LexRank st);
      r5 ← getSummary (Parser text tok) language k (new_summarizer SumBasic st);
      r6 ← getSummary (Parser text tok) language k (new_summarizer KL st);
      mret (<["KL" := r6]> (<["SumBasic" := r5]> (<["LexRank" := r4]>
             (<["TextRank" := r3]> (<["LSA" := r2]> (<["Luhn" := r1]> ∅)))))))
       (log (EvRead filename) w)).
Proof.
  intros Htok Hf Hst. unfold sumySummarize, from_file.
  rewrite Htok. erewrite bind_Ok by apply lift_inr.
  erewrite bind_Ok.
  2:{ erewrite bind_Ok by (apply read_path_Some; eassumption). reflexivity. }
  rewrite Hst. erewrite bind_Ok by apply lift_inr. reflexivity.
Qed.

Lemma getSummary_cases w p language k a st :
  getSummary p language k (new_summarizer a st) w
  = (match get_stop_words language with
     | inl e => Raise e
     | inr sw =>
         match parse_document (p_text p) (p_tokenizer p) with
         | inl e => Raise e
         | inr doc =>
             match summarizer_call a st (Some sw) doc k with
             | inl e => Raise e
             | inr out => Ok (map str out)
             end
         end
     end, w).
Proof.
  unfold getSummary, parser_document, mbind, M_bind, bind. cbn.
  destruct (get_stop_words language); cbn; [reflexivity|].
  destruct (parse_document _ _); cbn; [reflexivity|].
  destruct (summarizer_call _ _ _ _ _); reflexivity.
Qed.

Lemma sumySummarize_no_tokenizer w filename language k e :
  Tokenizer language = inl e ->
  sumySummarize filename language k w = (Raise e, w).
Proof.
  intros Htok. unfold sumySummarize. rewrite Htok.
  now erewrite bind_Raise by apply lift_inl.
Qed.

Lemma sumySummarize_no_file w filename language k tok :
  Tokenizer language = inr tok ->
  files w !! filename = None ->
  sumySummarize filename language k w = (Raise (FileNotFoundError filename), w).
Proof.
  intros Htok Hf. unfold sumySummarize, from_file. rewrite Htok.
  erewrite bind_Ok by apply lift_inr.
  erewrite bind_Raise; [reflexivity|].
  erewrite bind_Raise; [reflexivity|]. now apply read_path_None.
Qed.

Lemma sumySummarize_no_stemmer w filename language k tok text e :
  Tokenizer language = inr tok ->
  files w !! filename = Some text ->
  Stemmer language = inl e ->
  sumySummarize filename language k w = (Raise e, log (EvRead filename) w).
Proof.
  intros Htok Hf Hst. unfold sumySummarize, from_file. rewrite Htok.
  erewrite bind_Ok by apply lift_inr.
  erewrite bind_Ok.
  2:{ erewrite bind_Ok by (apply read_path_Some; eassumption). reflexivity. }
  rewrite Hst. now erewrite bind_Raise by apply lift_inl.
Qed.

(** After the stemmer: the six calls, one after the other. *)
Lemma sumySummarize_calls w filename language k text tok st sw doc :
  Tokenizer language = inr tok ->
  files w !! filename = Some text ->
  Stemmer language = inr st ->
  get_stop_words language = inr sw ->
  parse_document text tok = inr doc ->
  sumySummarize filename language k w
  = (match summarizer_call Luhn st (Some sw) doc k with
     | inl e => Raise e
     | inr o1 =>
     match summarizer_call LSA st (Some sw) doc k with
     | inl e => Raise e
     | inr o2 =>
     match summarizer_call TextRank st (Some sw) doc k with
     | inl e => Raise e
     | inr o3 =>
     match summarizer_call LexRank st (Some sw) doc k with
     | inl e => Raise e
     | inr o4 =>
     match summarizer_call SumBasic st (Some sw) doc k with
     | inl e => Raise e
     | inr o5 =>
     match summarizer_call KL st (Some sw) doc k with
     | inl e => Raise e
     | inr o6 =>
         Ok (all_summaries (fun a => match a with
                                     | Luhn => o1 | LSA => o2 | TextRank => o3
                                     | LexRank => o4 | SumBasic => o5 | KL => o6
                                     end))
     end end end end end end,
     log (EvRead filename) w).
Proof.
  intros Htok Hf Hst Hsw Hdoc.
  rewrite (sumySummarize_start w filename language k text tok st Htok Hf Hst).
  unfold mbind, M_bind, bind.
  rewrite getSummary_cases; cbn [p_text p_tokenizer]; rewrite Hsw, Hdoc.
  destruct (summarizer_call Luhn _ _ _ _); [reflexivity|]. cbn beta iota.
  rewrite getSummary_cases; cbn [p_text p_tokenizer]; rewrite Hsw, Hdoc.
  destruct (summarizer_call LSA _ _ _ _); [reflexivity|]. cbn beta iota.
  rewrite getSummary_cases; cbn [p_text p_tokenizer]; rewrite Hsw, Hdoc.
  destruct (summarizer_call TextRank _ _ _ _); [reflexivity|]. cbn beta iota.
  rewrite getSummary_cases; cbn [p_text p_tokenizer]; rewrite Hsw, Hdoc.
  destruct (summarizer_call LexRank _ _ _ _); [reflexivity|]. cbn beta iota.
  rewrite getSummary_cases; cbn [p_text p_tokenizer]; rewrite Hsw, Hdoc.
  destruct (summarizer_call SumBasic _ _ _ _); [reflexivity|]. cbn beta iota.
  rewrite getSummary_cases; cbn [p_text p_tokenizer]; rewrite Hsw, Hdoc.
  destruct (summarizer_call KL _ _ _ _); reflexivity.
Qed.

Lemma sumySummarize_no_stop_words w filename language k tok text st e :
  Tokenizer language = inr tok ->
  files w !! filename = Some text ->
  Stemmer language = inr st ->
  get_stop_words language = inl e ->
  sumySummarize filename language k w = (Raise e, log (EvRead filename) w).
Proof.
  intros Htok Hf Hst Hsw.
  rewrite (sumySummarize_start w filename language k text tok st Htok Hf Hst).
  unfold mbind, M_bind, bind. rewrite getSummary_cases. now rewrite Hsw.
Qed.

Lemma sumySummarize_no_document w filename language k tok text st sw e :
  Tokenizer language = inr tok ->
  files w !! filename = Some text ->
  Stemmer language = inr st ->
  get_stop_words language = inr sw ->
  parse_document text tok = inl e ->
  sumySummarize filename language k w = (Raise e, log (EvRead filename) w).
Proof.
  intros Htok Hf Hst Hsw Hdoc.
  rewrite (sumySummarize_start w filename language k text tok st Htok Hf Hst).
  unfold mbind, M_bind, bind. rewrite getSummary_cases. cbn [p_text p_tokenizer].
  now rewrite Hsw, Hdoc.
Qed.

End MoreSourceFacts.

(** * Facts about the pipeline of [pytrankSummarize] and the script body *)

(** ** Worlds that agree on some files *)

Lemma same_on_weaken L L' w1 w2 :
  (forall p, p ∈ L' -> p ∈ L) -> same_on L w1 w2 -> same_on L' w1 w2.
Proof. intros Hsub H p Hp. apply H, Hsub, Hp. Qed.

Lemma carries_ret L {A} (a : A) : carries L L (mret a : M A).
Proof. intros w1 w2 H. cbn. auto. Qed.

Lemma carries_raise L {A} e : carries L L (@raise A e).
Proof. intros w1 w2 H. cbn. auto. Qed.

Lemma carries_lift L {A} (r : exn + A) : carries L L (lift r).
Proof. destruct r; [apply carries_raise | apply (carries_ret L a)]. Qed.

Lemma carries_bind L1 L2 L3 {A B} (c : M A) (k : A -> M B) :
  carries L1 L2 c -> (forall a, carries L2 L3 (k a)) -> carries L1 L3 (c ≫= k).
Proof.
  intros Hc Hk w1 w2 Hw. destruct (Hc w1 w2 Hw) as [Hr Hpost].
  unfold mbind, M_bind, bind.
  destruct (c w1) as [[a|e] u1], (c w2) as [[a'|e'] u2]; cbn in *; try discriminate.
  - injection Hr as <-. apply Hk. now apply (Hpost a).
  - injection Hr as ->. split; [reflexivity|]. intros a Ha. discriminate.
Qed.

Lemma carries_post L1 L2 L2' {A} (c : M A) :
  (forall p, p ∈ L2' -> p ∈ L2) -> carries L1 L2 c -> carries L1 L2' c.
Proof.
  intros Hsub Hc w1 w2 Hw. destruct (Hc w1 w2 Hw) as [Hr Hpost].
  split; [assumption|]. intros a Ha. eapply same_on_weaken; eauto.
Qed.

Lemma carries_read_path L path : path ∈ L -> carries L L (read_path path).
Proof.
  intros Hp w1 w2 Hw. pose proof (Hw path Hp) as Heq.
  unfold read_path, open, read, close, mbind, M_bind, bind, mret, M_ret, ret.
  rewrite <- Heq. destruct (files w1 !! path) as [t|] eqn:Hf; cbn.
  - rewrite Hf, <- Heq. cbn. split; [reflexivity|]. intros _ _. exact Hw.
  - split; [reflexivity|]. intros a Ha. discriminate.
Qed.

Lemma carries_write L fh data : carries L L (write fh data).
Proof.
  intros w1 w2 Hw. cbn. split; [reflexivity|]. intros _ _ p Hp. cbn.
  destruct (decide (h_path fh = p)) as [->|Hne].
  - rewrite !lookup_insert_eq. now rewrite (Hw p Hp).
  - rewrite !lookup_insert_ne by assumption. now apply Hw.
Qed.

Lemma carries_close L fh : carries L L (close fh).
Proof. apply (carries_ret L tt). Qed.

(** Opening a file for writing empties it: from then on the two worlds
    agree on it, whatever it held. *)
Lemma carries_open_WR L L' path {B} (k : handle -> M B) :
  carries (path :: L) L' (k (Handle path WR)) ->
  carries L L' (open path WR ≫= k).
Proof.
  intros Hk w1 w2 Hw. unfold mbind, M_bind, bind, open.
  apply Hk. intros p Hp. cbn.
  destruct (decide (path = p)) as [->|Hne].
  - now rewrite !lookup_insert_eq.
  - rewrite !lookup_insert_ne by assumption. apply Hw.
    apply elem_of_cons in Hp as [->|Hp]; [congruence | assumption].
Qed.

Lemma carries_for_each L {A} (items : list A) (body : A -> M unit) :
  (forall x, carries L L (body x)) -> carries L L (for_each items body).
Proof.
  intros Hb. induction items as [|x items IH]; cbn; [apply (carries_ret L tt)|].
  eapply carries_bind; [apply Hb | intros _; apply IH].
Qed.

Lemma carries_for_gen L {A} (g : gen A) (body : A -> M unit) :
  (forall x, carries L L (body x)) -> carries L L (for_gen g body).
Proof.
  intros Hb. unfold for_gen. eapply carries_bind; [now apply carries_for_each|].
  intros _. destruct (snd g); [apply carries_raise | apply (carries_ret L tt)].
Qed.

Lemma carries_list_of_gen L {A} (g : gen A) : carries L L (list_of_gen g).
Proof.
  unfold list_of_gen. destruct (snd g); [apply carries_raise | apply carries_ret].
Qed.

Lemma carries_map_M L {A B} (f : A -> M B) (l : list A) :
  (forall x, carries L L (f x)) -> carries L L (map_M f l).
Proof.
  intros Hf. induction l as [|x l IH]; cbn; [apply (carries_ret L [])|].
  eapply carries_bind; [apply Hf|]. intros y.
  eapply carries_bind; [apply IH|]. intros ys. apply (carries_ret L (y :: ys)).
Qed.

(** ** Computations that print nothing *)

Lemma quiet_ret {A} (a : A) : quiet (mret a : M A).
Proof. intros w. reflexivity. Qed.

Lemma quiet_raise {A} e : quiet (@raise A e).
Proof. intros w. reflexivity. Qed.

Lemma quiet_lift {A} (r : exn + A) : quiet (lift r).
Proof. destruct r; [apply quiet_raise | apply (quiet_ret a)]. Qed.

Lemma quiet_bind {A B} (c : M A) (k : A -> M B) :
  quiet c -> (forall a, quiet (k a)) -> quiet (c ≫= k).
Proof.
  intros Hc Hk w. pose proof (Hc w) as H1. unfold mbind, M_bind, bind.
  destruct (c w) as [[a|e] u]; cbn in *; [|assumption].
  now rewrite (Hk a u).
Qed.

Lemma quiet_open path m : quiet (open path m).
Proof.
  intros w. unfold open. destruct m; [|reflexivity].
  now destruct (files w !! path).
Qed.

Lemma quiet_read fh : quiet (read fh).
Proof. intros w. reflexivity. Qed.

Lemma quiet_write fh data : quiet (write fh data).
Proof. intros w. reflexivity. Qed.

Lemma quiet_close fh : quiet (close fh).
Proof. intros w. reflexivity. Qed.

Create HintDb silence.
#[local] Hint Resolve quiet_ret quiet_raise quiet_lift quiet_open quiet_read
  quiet_write quiet_close : silence.

Ltac quiet_steps :=
  repeat first
    [ solve [ auto with silence ]
    | apply quiet_bind; [| intros ? ] ].

Lemma quiet_read_path path : quiet (read_path path).
Proof. unfold read_path. quiet_steps. Qed.

Lemma quiet_for_each {A} (items : list A) (body : A -> M unit) :
  (forall x, quiet (body x)) -> quiet (for_each items body).
Proof.
  intros Hb. induction items as [|x items IH]; cbn; [apply (quiet_ret tt)|].
  apply quiet_bind; auto.
Qed.

Lemma quiet_for_gen {A} (g : gen A) (body : A -> M unit) :
  (forall x, quiet (body x)) -> quiet (for_gen g body).
Proof.
  intros Hb. unfold for_gen. apply quiet_bind; [now apply quiet_for_each|].
  intros _. destruct (snd g); auto with silence.
Qed.

Lemma quiet_list_of_gen {A} (g : gen A) : quiet (list_of_gen g).
Proof. unfold list_of_gen. destruct (snd g); auto with silence. Qed.

Lemma quiet_map_M {A B} (f : A -> M B) (l : list A) :
  (forall x, quiet (f x)) -> quiet (map_M f l).
Proof.
  intros Hf. induction l as [|x l IH]; cbn; [apply (quiet_ret [])|].
  apply quiet_bind; [auto|]. intros y.
  apply quiet_bind; [auto|]. intros ys. apply (quiet_ret (y :: ys)).
Qed.

#[local] Hint Resolve quiet_read_path quiet_for_each quiet_for_gen
  quiet_list_of_gen quiet_map_M : silence.

Lemma reader_quiet {A} (c : M A) : reader c -> quiet c.
Proof. intros Hc w. now destruct (Hc w w eq_refl) as (_ & _ & H & _). Qed.

Lemma reader_files {A} (c : M A) w : reader c -> files (snd (c w)) = files w.
Proof. intros Hc. now destruct (Hc w w eq_refl) as (_ & H & _). Qed.

(** ** Running a computation on a file system *)

Lemma yields_ret {A} (a : A) fs : yields (mret a : M A) fs (Ok a) fs.
Proof. intros w Hw. cbn. auto. Qed.

Lemma yields_lift_inr {A} (r : exn + A) a fs : r = inr a -> yields (lift r) fs (Ok a) fs.
Proof. intros -> w Hw. cbn. auto. Qed.

Lemma yields_lift_inl {A} (r : exn + A) e fs : r = inl e -> yields (lift r) fs (Raise e) fs.
Proof. intros -> w Hw. cbn. auto. Qed.

Lemma yields_bind_Ok {A B} (c : M A) (k : A -> M B) fs a fs1 r fs2 :
  yields c fs (Ok a) fs1 -> yields (k a) fs1 r fs2 -> yields (c ≫= k) fs r fs2.
Proof.
  intros Hc Hk w Hw. destruct (Hc w Hw) as [Hr Hf].
  unfold mbind, M_bind, bind. destruct (c w) as [r1 u]. cbn in *. subst r1.
  now apply Hk.
Qed.

Lemma yields_bind_Raise {A B} (c : M A) (k : A -> M B) fs e fs1 :
  yields c fs (Raise e) fs1 -> yields (c ≫= k) fs (Raise e) fs1.
Proof.
  intros Hc w Hw. destruct (Hc w Hw) as [Hr Hf].
  unfold mbind, M_bind, bind. destruct (c w) as [r1 u]. cbn in *. subst r1.
  cbn. auto.
Qed.

Lemma yields_open_WR path fs :
  yields (open path WR) fs (Ok (Handle path WR)) (<[path := EmptyString]> fs).
Proof. intros w Hw. cbn. now rewrite Hw. Qed.

Lemma yields_read_path path fs text :
  fs !! path = Some text -> yields (read_path path) fs (Ok text) fs.
Proof.
  intros Hf w Hw. subst fs.
  unfold read_path, open, read, close, mbind, M_bind, bind, mret, M_ret, ret.
  rewrite Hf. cbn. rewrite Hf. cbn. auto.
Qed.

Lemma yields_read_path_None path fs :
  fs !! path = None -> yields (read_path path) fs (Raise (FileNotFoundError path)) fs.
Proof.
  intros Hf w Hw. subst fs.
  unfold read_path, open, mbind, M_bind, bind. rewrite Hf. cbn. auto.
Qed.

Lemma yields_write path m data fs old :
  fs !! path = Some old ->
  yields (write (Handle path m) data) fs (Ok tt) (<[path := old +:+ data]> fs).
Proof. intros Hf w Hw. subst fs. cbn. now rewrite Hf. Qed.

Lemma concat_str_cons x l : concat_str (x :: l) = x +:+ concat_str l.
Proof. reflexivity. Qed.

(** A loop whose body appends [out x] to the file [path] appends them all,
    in the order of the items. *)
Lemma yields_for_each_append {A} (items : list A) (body : A -> M unit)
    (out : A -> string) path fs old :
  (forall x fs0 old0, fs0 !! path = Some old0 ->
     yields (body x) fs0 (Ok tt) (<[path := old0 +:+ out x]> fs0)) ->
  fs !! path = Some old ->
  yields (for_each items body) fs (Ok tt) (<[path := old +:+ written out items]> fs).
Proof.
  intros Hb. revert fs old. induction items as [|x items IH]; intros fs old Hf.
  - unfold written. cbn. rewrite append_nil_r, insert_id by assumption.
    apply (yields_ret tt).
  - cbn [for_each]. eapply yields_bind_Ok; [apply Hb; eassumption|].
    unfold written. cbn [map]. rewrite concat_str_cons, <- append_assoc.
    replace (<[path := (old +:+ out x) +:+ concat_str (map out items)]> fs)
      with (<[path := (old +:+ out x) +:+ written out items]>
              (<[path := old +:+ out x]> fs))
      by apply insert_insert_eq.
    apply IH. apply lookup_insert_eq.
Qed.

Lemma yields_for_gen {A} (g : gen A) (body : A -> M unit)
    (out : A -> string) path fs old :
  (forall x fs0 old0, fs0 !! path = Some old0 ->
     yields (body x) fs0 (Ok tt) (<[path := old0 +:+ out x]> fs0)) ->
  fs !! path = Some old ->
  yields (for_gen g body) fs
    (match snd g with Some e => Raise e | None => Ok tt end)
    (<[path := old +:+ written out (fst g)]> fs).
Proof.
  intros Hb Hf. unfold for_gen.
  eapply yields_bind_Ok; [eapply yields_for_each_append; eassumption|].
  destruct (snd g); intros w Hw; cbn; auto.
Qed.

Lemma yields_list_of_gen {A} (g : gen A) fs :
  yields (list_of_gen g) fs
    (match snd g with Some e => Raise e | None => Ok (fst g) end) fs.
Proof. unfold list_of_gen. destruct (snd g); intros w Hw; cbn; auto. Qed.

Lemma yields_map_M_lift {A B} (f : A -> exn + B) (l : list A) (out : list B) fs :
  Forall2 (fun x y => f x = inr y) l out ->
  yields (map_M (fun x => lift (f x)) l) fs (Ok out) fs.
Proof.
  induction 1 as [|x y l out Hx _ IH]; cbn [map_M]; [apply (yields_ret [])|].
  eapply yields_bind_Ok; [apply yields_lift_inr; eassumption|].
  eapply yields_bind_Ok; [apply IH|]. apply (yields_ret (y :: out)).
Qed.

(** ** [sorted] *)

Lemma insert_by_key_perm {A} (key : A -> Z) x l : insert_by_key key x l ≡ₚ x :: l.
Proof.
  induction l as [|y l IH]; cbn; [reflexivity|].
  destruct (key y <? key x); [|reflexivity].
  rewrite IH. apply Permutation_swap.
Qed.

Lemma sorted_by_key_perm {A} (key : A -> Z) l : sorted_by_key key l ≡ₚ l.
Proof.
  induction l as [|x l IH]; cbn; [reflexivity|].
  fold (sorted_by_key key l). now rewrite insert_by_key_perm, IH.
Qed.

Lemma insert_by_key_sorted {A} (key : A -> Z) x l :
  ascending key l -> ascending key (insert_by_key key x l).
Proof.
  unfold ascending. induction l as [|y l IH]; intros Hs; cbn.
  - repeat constructor.
  - destruct (Z.ltb_spec (key y) (key x)) as [Hlt|Hge].
    + inversion Hs as [|? ? Hs' Hhd]; subst. constructor; [now apply IH|].
      destruct l as [|y' l]; cbn.
      * constructor. lia.
      * inversion Hhd; subst. destruct (key y' <? key x); constructor; lia.
    + constructor; [assumption|]. constructor. lia.
Qed.

Lemma sorted_by_key_sorted {A} (key : A -> Z) l : ascending key (sorted_by_key key l).
Proof.
  induction l as [|x l IH]; cbn; [constructor|].
  now apply insert_by_key_sorted.
Qed.

Lemma insert_by_key_filter {A} (key : A -> Z) x l z :
  ascending key l ->
  filter (fun a => key a = z) (insert_by_key key x l)
  = filter (fun a => key a = z) (x :: l).
Proof.
  unfold ascending. induction l as [|y l IH]; intros Hs; cbn [insert_by_key]; [reflexivity|].
  destruct (Z.ltb_spec (key y) (key x)) as [Hlt|Hge]; [|reflexivity].
  inversion Hs as [|? ? Hs' Hhd]; subst.
  rewrite filter_cons, (IH Hs'), !filter_cons.
  destruct (decide (key y = z)) as [Hy|Hy], (decide (key x = z)) as [Hx|Hx];
    try reflexivity.
  lia.
Qed.

Lemma sorted_by_key_filter {A} (key : A -> Z) l z :
  filter (fun a => key a = z) (sorted_by_key key l) = filter (fun a => key a = z) l.
Proof.
  induction l as [|x l IH]; cbn [sorted_by_key foldr]; [reflexivity|].
  fold (sorted_by_key key l).
  rewrite insert_by_key_filter by apply sorted_by_key_sorted.
  now rewrite !filter_cons, IH.
Qed.

Lemma yields_post {A} (c : M A) fs r fs1 fs2 :
  fs1 = fs2 -> yields c fs r fs1 -> yields c fs r fs2.
Proof. now intros ->. Qed.

Lemma yields_for_gen_None {A} (g : gen A) (body : A -> M unit)
    (out : A -> string) path fs old items :
  (forall x fs0 old0, fs0 !! path = Some old0 ->
     yields (body x) fs0 (Ok tt) (<[path := old0 +:+ out x]> fs0)) ->
  fs !! path = Some old ->
  g = (items, None) ->
  yields (for_gen g body) fs (Ok tt) (<[path := old +:+ written out items]> fs).
Proof.
  intros Hb Hf ->. exact (yields_for_gen (items, None) body out path fs old Hb Hf).
Qed.

Lemma yields_for_gen_Some {A} (g : gen A) (body : A -> M unit)
    (out : A -> string) path fs old items e :
  (forall x fs0 old0, fs0 !! path = Some old0 ->
     yields (body x) fs0 (Ok tt) (<[path := old0 +:+ out x]> fs0)) ->
  fs !! path = Some old ->
  g = (items, Some e) ->
  yields (for_gen g body) fs (Raise e) (<[path := old +:+ written out items]> fs).
Proof.
  intros Hb Hf ->. exact (yields_for_gen (items, Some e) body out path fs old Hb Hf).
Qed.

Lemma yields_list_of_gen_None {A} (g : gen A) fs :
  snd g = None -> yields (list_of_gen g) fs (Ok (fst g)) fs.
Proof. intros Hg. pose proof (yields_list_of_gen g fs) as H. now rewrite Hg in H. Qed.

(** The body of the third loop writes the sentence, then the line end. *)
Lemma yields_write_twice path m a b fs old :
  fs !! path = Some old ->
  yields (write (Handle path m) a ;; write (Handle path m) b) fs (Ok tt)
    (<[path := old +:+ (a +:+ b)]> fs).
Proof.
  intros Hf. eapply yields_bind_Ok; [apply yields_write; eassumption|].
  eapply yields_post; [|apply yields_write; apply lookup_insert_eq].
  now rewrite insert_insert_eq, append_assoc.
Qed.

(** ** [pytrankSummarize] *)

Ltac in_list :=
  solve [ repeat first [ apply list_elem_of_here | apply list_elem_of_further ] ].

Ltac carries_steps :=
  repeat first
    [ apply carries_ret
    | apply carries_lift
    | apply carries_write
    | apply carries_close
    | apply carries_list_of_gen
    | apply carries_read_path; in_list
    | apply carries_for_gen; intros ?
    | apply carries_map_M; intros [? ?]
    | apply carries_open_WR
    | eapply carries_bind; [| intros ? ] ].

Ltac lookup_steps :=
  repeat first
    [ rewrite lookup_insert_eq
    | rewrite lookup_insert_ne by (first [ discriminate | congruence ]) ];
  try reflexivity.

Section PipelineFacts.
Context `{P : Packages}.

Lemma quiet_createJSON filename : quiet (createJSON filename).
Proof. unfold createJSON. quiet_steps. Qed.

Lemma quiet_pytrankSummarize filename : quiet (pytrankSummarize filename).
Proof.
  pose proof quiet_createJSON.
  unfold pytrankSummarize.
  repeat first
    [ solve [ auto with silence ]
    | apply quiet_for_gen; intros ?
    | apply quiet_map_M; intros [? ?]
    | apply quiet_bind; [| intros ? ] ].
Qed.

Lemma pytrankSummarize_missing w filename :
  files w !! filename = None ->
  pytrankSummarize filename w = (Raise (FileNotFoundError filename), w).
Proof.
  intros Hf. unfold pytrankSummarize.
  now erewrite bind_Raise by (apply createJSON_missing; eassumption).
Qed.

Lemma yields_createJSON filename fs text :
  fs !! filename = Some text ->
  yields (createJSON filename) fs (Ok (before_first dot filename +:+ ".json"))
    (<[before_first dot filename +:+ ".json"
       := json_dumps (PDict [("id", PInt 707); ("text", PStr (re_sub_del dquote text))])]> fs).
Proof.
  intros Hf w Hw. subst fs.
  pose proof (createJSON_run w filename text Hf) as Hr. cbv zeta in Hr.
  rewrite Hr. auto.
Qed.

(** Two runs on inputs that hold the same text agree; so do two runs on
    any two texts when the JSON file of [createJSON] is [o1.json] itself. *)
Lemma pytrankSummarize_agree w1 w2 filename t1 t2 :
  files w1 !! filename = Some t1 ->
  files w2 !! filename = Some t2 ->
  t1 = t2 \/ before_first dot filename +:+ ".json" = "o1.json" ->
  fst (pytrankSummarize filename w1) = fst (pytrankSummarize filename w2) /\
  (forall a, fst (pytrankSummarize filename w1) = Ok a ->
     same_on stage_files (snd (pytrankSummarize filename w1))
                         (snd (pytrankSummarize filename w2))).
Proof.
  intros H1 H2 Hcase. unfold pytrankSummarize.
  pose proof (createJSON_run w1 filename t1 H1) as Hr1.
  pose proof (createJSON_run w2 filename t2 H2) as Hr2. cbv zeta in Hr1, Hr2.
  rewrite (bind_Ok _ _ _ _ _ Hr1), (bind_Ok _ _ _ _ _ Hr2).
  set (u1 := World _ _ _ _). set (u2 := World _ _ _ (journal w2 ++ _)%list).
  destruct Hcase as [<-|Hjf].
  - set (jf := before_first dot filename +:+ ".json") in *.
    match goal with |- fst (?c u1) = _ /\ _ =>
      assert (Hc : carries [jf] stage_files c) end.
    { eapply carries_post; cycle 1.
      - carries_steps.
      - intros p Hp. unfold stage_files in Hp.
        repeat (apply elem_of_cons in Hp as [->|Hp]; [in_list|]).
        now apply elem_of_nil in Hp. }
    apply Hc. intros p Hp. apply list_elem_of_singleton in Hp as ->.
    subst u1 u2. cbn. now rewrite !lookup_insert_eq.
  - rewrite Hjf in *.
    match goal with |- fst (?c u1) = _ /\ _ =>
      assert (Hc : carries [] stage_files c) end.
    { eapply carries_post; cycle 1.
      - carries_steps.
      - intros p Hp. unfold stage_files in Hp.
        repeat (apply elem_of_cons in Hp as [->|Hp]; [in_list|]).
        now apply elem_of_nil in Hp. }
    apply Hc. intros p Hp. now apply elem_of_nil in Hp.
Qed.

(** Line 224: one call of [make_sentence] per pair, in the order of the list. *)
Lemma yields_make_sentences (l : list (sent_text * Z)) made fs :
  Forall2 (fun x s => make_sentence (fst x) = inr s) l made ->
  yields (map_M (fun '(sent_text, idx) => lift (make_sentence sent_text)) l)
    fs (Ok made) fs.
Proof.
  induction 1 as [|[st idx] y l out Hx _ IH]; cbn [map_M]; [apply (yields_ret [])|].
  eapply yields_bind_Ok; [apply yields_lift_inr; exact Hx|].
  eapply yields_bind_Ok; [apply IH|]. apply (yields_ret (y :: out)).
Qed.

(** The run in which every stage returns. *)
Lemma pytrankSummarize_runs fs filename text grafs rk phrases krn tops sents made :
  fs !! filename = Some text ->
  let jsonFile := before_first dot filename +:+ ".json" in
  let body := json_dumps (PDict [("id", PInt 707); ("text", PStr (re_sub_del dquote text))]) in
  jsonFile <> "o1.json" ->
  parse_doc_json_iter body = (grafs, None) ->
  let o1 := written (fun g => pretty_print_graf g +:+ newline) grafs in
  text_rank o1 = inr rk ->
  normalize_key_phrases o1 rk = (phrases, None) ->
  let o2 := written (fun rl => pretty_print_phrase rl +:+ newline) phrases in
  rank_kernel o2 = inr krn ->
  top_sentences krn o1 = (tops, None) ->
  let o3 := written (fun s => pretty_print_sentence s +:+ newline) tops in
  snd (limit_keyphrases o2 12) = None ->
  limit_sentences o3 50 = (sents, None) ->
  Forall2 (fun x s => make_sentence (fst x) = inr s) (sorted_by_key snd sents) made ->
  yields (pytrankSummarize filename) fs (Ok (join " " made))
    (<["o3.json" := o3]> (<["o2.json" := o2]> (<["o1.json" := o1]>
       (<[jsonFile := body]> fs)))).
Proof.
  intros Hf jsonFile body Hne Hparse o1 Hrank Hnorm o2 Hkernel Htop o3 Hkeys Hsents Hmade.
  unfold pytrankSummarize.
  eapply yields_bind_Ok; [apply yields_createJSON; eassumption|]. cbv beta zeta.
  fold jsonFile body.
  eapply yields_bind_Ok; [apply yields_open_WR|]. cbv beta.
  eapply yields_bind_Ok.
  { apply (yields_read_path _ _ body).
    rewrite lookup_insert_ne by congruence. apply lookup_insert_eq. }
  cbv beta.
  eapply yields_bind_Ok.
  { eapply (yields_for_gen_None _ _ (fun g => pretty_print_graf g +:+ newline) "o1.json");
      [ intros x fs0 old0 H0; now apply yields_write
      | apply lookup_insert_eq
      | exact Hparse ]. }
  cbv beta. rewrite insert_insert_eq, append_nil_l. fold o1.
  eapply yields_bind_Ok; [apply (yields_ret tt)|]. cbv beta.
  eapply yields_bind_Ok; [apply (yields_read_path _ _ o1); apply lookup_insert_eq|]. cbv beta.
  eapply yields_bind_Ok; [apply yields_lift_inr; exact Hrank|]. cbv beta.
  eapply yields_bind_Ok; [apply yields_open_WR|]. cbv beta.
  eapply yields_bind_Ok.
  { apply (yields_read_path _ _ o1).
    rewrite lookup_insert_ne by discriminate. apply lookup_insert_eq. }
  cbv beta.
  eapply yields_bind_Ok.
  { eapply (yields_for_gen_None _ _ (fun rl => pretty_print_phrase rl +:+ newline) "o2.json");
      [ intros x fs0 old0 H0; now apply yields_write
      | apply lookup_insert_eq
      | exact Hnorm ]. }
  cbv beta. rewrite insert_insert_eq, append_nil_l. fold o2.
  eapply yields_bind_Ok; [apply (yields_ret tt)|]. cbv beta.
  eapply yields_bind_Ok; [apply (yields_read_path _ _ o2); apply lookup_insert_eq|]. cbv beta.
  eapply yields_bind_Ok; [apply yields_lift_inr; exact Hkernel|]. cbv beta.
  eapply yields_bind_Ok; [apply yields_open_WR|]. cbv beta.
  eapply yields_bind_Ok.
  { apply (yields_read_path _ _ o1).
    rewrite !lookup_insert_ne by discriminate. apply lookup_insert_eq. }
  cbv beta.
  eapply yields_bind_Ok.
  { eapply (yields_for_gen_None _ _ (fun s => pretty_print_sentence s +:+ newline) "o3.json");
      [ intros x fs0 old0 H0; now apply yields_write_twice
      | apply lookup_insert_eq
      | exact Htop ]. }
  cbv beta. rewrite insert_insert_eq, append_nil_l. fold o3.
  eapply yields_bind_Ok; [apply (yields_ret tt)|]. cbv beta.
  eapply yields_bind_Ok.
  { apply (yields_read_path _ _ o2).
    rewrite lookup_insert_ne by discriminate. apply lookup_insert_eq. }
  cbv beta.
  eapply yields_bind_Ok; [apply yields_list_of_gen_None; exact Hkeys|]. cbv beta.
  eapply yields_bind_Ok; [apply (yields_read_path _ _ o3); apply lookup_insert_eq|]. cbv beta.
  eapply yields_bind_Ok.
  { rewrite Hsents. now apply (yields_list_of_gen_None (sents, None)). }
  cbv beta zeta. cbn [fst].
  eapply yields_bind_Ok; [apply yields_make_sentences, Hmade|].
  apply (yields_ret (join " " made)).
Qed.

(** ** The script body *)

Lemma bind_run {A B} (c : M A) (k : A -> M B) w :
  (c ≫= k) w
  = match c w with
    | (Ok a, w') => k a w'
    | (Raise e, w') => (Raise e, w')
    end.
Proof. reflexivity. Qed.

(** [getAlgorithmChoice] prints the menu, then reads one line, whatever
    comes next. *)
Lemma getAlgorithmChoice_cases w :
  getAlgorithmChoice w
  = (match keyboard w with
     | [] => Raise EOFError
     | line :: _ => match int line with inr c => Ok c | inl e => Raise e end
     end,
     World (files w) (console w ++ menu) (tail (keyboard w))
           (journal w ++ map EvPrint menu ++ [EvInput "Enter your choice: "])).
Proof.
  unfold getAlgorithmChoice, print, input, mbind, M_bind, bind, mret, M_ret, ret. cbn.
  destruct (keyboard w) as [|line rest]; cbn.
  - unfold log. cbn. rewrite <- !app_assoc. reflexivity.
  - destruct (int line); cbn; unfold log; cbn; rewrite <- !app_assoc; reflexivity.
Qed.

(** The four calls of the script body, their results dropped. *)
Lemma quiet_discard {A} (c : M A) : quiet c -> quiet (c ;; mret tt).
Proof. intros Hc. apply quiet_bind; [assumption|]. intros _. apply (quiet_ret tt). Qed.

Lemma reader_discard {A} (c : M A) : reader c -> reader (c ;; mret tt).
Proof. intros Hc. apply reader_bind; [assumption|]. intros _. apply (reader_ret tt). Qed.

End PipelineFacts.

(** * Further properties of the entry points

    Properties read off the source, beyond the claims of the specification:
    the failure paths of the entry points, what they leave on the file
    system, and how their steps compose. *)
Module Extras.

Section ReadingCalls.
Context `{P : Packages}.

(** X2.  Given a file whose name is already of the form [stem.json] (no dot
    in the stem), [createJSON] writes over its own input: the file then holds
    the serialised object instead of the text it held, and every other file
    is as it was. *)
Theorem createJSON_writes_over_a_json_input w stem text :
  ~ occurs dot stem ->
  files w !! (stem +:+ ".json") = Some text ->
  exists w',
    createJSON (stem +:+ ".json") w = (Ok (stem +:+ ".json"), w') /\
    files w' !! (stem +:+ ".json")
      = Some (json_dumps (PDict [("id", PInt 707); ("text", PStr (without dquote text))])) /\
    forall path, path ≠ stem +:+ ".json" -> files w' !! path = files w !! path.
Proof.
  intros Hstem Hf.
  pose proof (createJSON_run w _ text Hf) as Hr. cbv zeta in Hr.
  change ".json" with (String dot "json") in Hr at 2 4 5 6 7.
  rewrite (before_first_append dot stem "json" Hstem) in Hr.
  change (String dot "json") with ".json" in Hr.
  eexists. split; [exact Hr|]. cbn. split.
  - now rewrite lookup_insert_eq, re_sub_del_without.
  - intros path Hne. now rewrite lookup_insert_ne.
Qed.

(** X3.  When the JSON file is not the input itself, calling [createJSON] a
    second time on the same name returns the same name and leaves the file
    system as the first call left it. *)
Theorem createJSON_again w filename text :
  files w !! filename = Some text ->
  before_first dot filename +:+ ".json" ≠ filename ->
  let w1 := snd (createJSON filename w) in
  fst (createJSON filename w1) = fst (createJSON filename w) /\
  files (snd (createJSON filename w1)) = files w1.
Proof.
  intros Hf Hne.
  pose proof (createJSON_run w filename text Hf) as Hr. cbv zeta in Hr.
  rewrite Hr. cbn zeta. cbn [snd fst].
  set (w1 := World _ _ _ _).
  assert (Hf1 : files w1 !! filename = Some text).
  { subst w1. cbn. now rewrite lookup_insert_ne. }
  pose proof (createJSON_run w1 filename text Hf1) as Hr1. cbv zeta in Hr1.
  rewrite Hr1. cbn [snd fst files]. split; [reflexivity|].
  subst w1. cbn [files]. apply insert_insert_eq.
Qed.

(** X4.  The text that [createJSON] stores is the contents of the input
    less its double quotes: it holds no double quote, is never longer than
    the contents, and is the contents themselves when they hold none. *)
Theorem createJSON_drops_quotes_only w filename text :
  files w !! filename = Some text ->
  exists stored,
    files (snd (createJSON filename w)) !! (before_first dot filename +:+ ".json")
      = Some (json_dumps (PDict [("id", PInt 707); ("text", PStr stored)])) /\
    ~ occurs dquote stored /\
    (String.length stored <= String.length text)%nat /\
    (~ occurs dquote text -> stored = text).
Proof.
  intros Hf.
  pose proof (createJSON_run w filename text Hf) as Hr. cbv zeta in Hr.
  rewrite Hr. cbn [snd files]. exists (re_sub_del dquote text).
  split; [apply lookup_insert_eq|]. split; [apply re_sub_del_free|].
  split; [apply re_sub_del_length | apply re_sub_del_id].
Qed.

(** X5.  The order in which [sumySummarize] can fail.  An unknown language
    fails in the tokenizer before the file is opened, so the world is
    untouched even when the file is missing too; a missing file fails next,
    before the stemmer is asked for; a failure of the stemmer, of the stop
    words or of the parsing comes after the file was read, and no summarizer
    has then been called. *)
Theorem sumySummarize_fails_in_order w filename language k :
  (forall e, Tokenizer language = inl e ->
     sumySummarize filename language k w = (Raise e, w)) /\
  (forall tok, Tokenizer language = inr tok -> files w !! filename = None ->
     sumySummarize filename language k w = (Raise (FileNotFoundError filename), w)) /\
  (forall tok text, Tokenizer language = inr tok -> files w !! filename = Some text ->
     (forall e, Stemmer language = inl e ->
        sumySummarize filename language k w = (Raise e, log (EvRead filename) w)) /\
     (forall st e, Stemmer language = inr st -> get_stop_words language = inl e ->
        sumySummarize filename language k w = (Raise e, log (EvRead filename) w)) /\
     (forall st sw e, Stemmer language = inr st -> get_stop_words language = inr sw ->
        parse_document text tok = inl e ->
        sumySummarize filename language k w = (Raise e, log (EvRead filename) w))).
Proof.
  split; [|split].
  - intros e He. now apply sumySummarize_no_tokenizer.
  - intros tok Htok Hf. eapply sumySummarize_no_file; eassumption.
  - intros tok text Htok Hf. split; [|split].
    + intros e He. eapply sumySummarize_no_stemmer; eassumption.
    + intros st e Hst He. eapply sumySummarize_no_stop_words; eassumption.
    + intros st sw e Hst Hsw He. eapply sumySummarize_no_document; eassumption.
Qed.

(** X6.  The six summarizers run in the order Luhn, LSA, TextRank, LexRank,
    SumBasic, KL, and the first one that raises ends the call: its exception
    is the one of [sumySummarize], whatever the later ones would do, and no
    dictionary is returned. *)
Theorem sumySummarize_stops_at_first_failure
    w filename language k text tok st sw doc a e :
  Tokenizer language = inr tok ->
  files w !! filename = Some text ->
  Stemmer language = inr st ->
  get_stop_words language = inr sw ->
  parse_document text tok = inr doc ->
  summarizer_call a st (Some sw) doc k = inl e ->
  (forall b, (run_order b < run_order a)%nat ->
     exists out, summarizer_call b st (Some sw) doc k = inr out) ->
  sumySummarize filename language k w = (Raise e, log (EvRead filename) w).
Proof.
  intros Htok Hf Hst Hsw Hdoc Hfail Hbefore.
  rewrite (sumySummarize_calls w filename language k text tok st sw doc
             Htok Hf Hst Hsw Hdoc).
  assert (Hstep : forall b, (run_order b < run_order a)%nat ->
            exists out, summarizer_call b st (Some sw) doc k = inr out) by exact Hbefore.
  destruct a; cbn in Hstep.
  - now rewrite Hfail.
  - destruct (Hstep Luhn) as [o1 ->]; [cbn; lia|]. now rewrite Hfail.
  - destruct (Hstep Luhn) as [o1 ->]; [cbn; lia|].
    destruct (Hstep LSA) as [o2 ->]; [cbn; lia|]. now rewrite Hfail.
  - destruct (Hstep Luhn) as [o1 ->]; [cbn; lia|].
    destruct (Hstep LSA) as [o2 ->]; [cbn; lia|].
    destruct (Hstep TextRank) as [o3 ->]; [cbn; lia|]. now rewrite Hfail.
  - destruct (Hstep Luhn) as [o1 ->]; [cbn; lia|].
    destruct (Hstep LSA) as [o2 ->]; [cbn; lia|].
    destruct (Hstep TextRank) as [o3 ->]; [cbn; lia|].
    destruct (Hstep LexRank) as [o4 ->]; [cbn; lia|]. now rewrite Hfail.
  - destruct (Hstep Luhn) as [o1 ->]; [cbn; lia|].
    destruct (Hstep LSA) as [o2 ->]; [cbn; lia|].
    destruct (Hstep TextRank) as [o3 ->]; [cbn; lia|].
    destruct (Hstep LexRank) as [o4 ->]; [cbn; lia|].
    destruct (Hstep SumBasic) as [o5 ->]; [cbn; lia|]. now rewrite Hfail.
Qed.

(** X7.  [sumySummarize] returns all or nothing.  Whenever it returns a
    dictionary, the file was there, the tokenizer, the stemmer, the stop
    words and the parsing were available, every one of the six summarizers
    returned, the dictionary holds the six results, and the only trace left
    is one read of the file. *)
Theorem sumySummarize_returns_all_or_nothing w filename language k summaries w' :
  sumySummarize filename language k w = (Ok summaries, w') ->
  exists text tok st sw doc (out : algorithm -> list sentence),
    files w !! filename = Some text /\
    Tokenizer language = inr tok /\
    Stemmer language = inr st /\
    get_stop_words language = inr sw /\
    parse_document text tok = inr doc /\
    (forall a, summarizer_call a st (Some sw) doc k = inr (out a)) /\
    summaries = all_summaries out /\
    w' = log (EvRead filename) w.
Proof.
  intros H.
  destruct (Tokenizer language) as [e|tok] eqn:Htok.
  { rewrite (sumySummarize_no_tokenizer w filename language k e Htok) in H.
    discriminate. }
  destruct (files w !! filename) as [text|] eqn:Hf.
  2:{ rewrite (sumySummarize_no_file w filename language k tok Htok Hf) in H.
      discriminate. }
  destruct (Stemmer language) as [e|st] eqn:Hst.
  { rewrite (sumySummarize_no_stemmer w filename language k tok text e Htok Hf Hst) in H.
    discriminate. }
  destruct (get_stop_words language) as [e|sw] eqn:Hsw.
  { rewrite (sumySummarize_no_stop_words w filename language k tok text st e
               Htok Hf Hst Hsw) in H. discriminate. }
  destruct (parse_document text tok) as [e|doc] eqn:Hdoc.
  { rewrite (sumySummarize_no_document w filename language k tok text st sw e
               Htok Hf Hst Hsw Hdoc) in H. discriminate. }
  rewrite (sumySummarize_calls w filename language k text tok st sw doc
             Htok Hf Hst Hsw Hdoc) in H.
  destruct (summarizer_call Luhn st (Some sw) doc k) as [?|o1] eqn:H1; [discriminate|].
  destruct (summarizer_call LSA st (Some sw) doc k) as [?|o2] eqn:H2; [discriminate|].
  destruct (summarizer_call TextRank st (Some sw) doc k) as [?|o3] eqn:H3; [discriminate|].
  destruct (summarizer_call LexRank st (Some sw) doc k) as [?|o4] eqn:H4; [discriminate|].
  destruct (summarizer_call SumBasic st (Some sw) doc k) as [?|o5] eqn:H5; [discriminate|].
  destruct (summarizer_call KL st (Some sw) doc k) as [?|o6] eqn:H6; [discriminate|].
  injection H as <- <-.
  exists text, tok, st, sw, doc,
    (fun a => match a with
              | Luhn => o1 | LSA => o2 | TextRank => o3
              | LexRank => o4 | SumBasic => o5 | KL => o6
              end).
  do 5 (split; [first [reflexivity | assumption]|]).
  split; [|split; reflexivity]. intros a. now destruct a.
Qed.

(** X8.  A missing input file.  [gensimSummarize], [pyteasSummarize],
    [createJSON] and [pytrankSummarize] raise the [FileNotFoundError] of the
    name and leave the world untouched: the package is not called, nothing
    is read, and no file is created, not even [o1.json]. *)
Theorem missing_input_file w filename title k fraction :
  files w !! filename = None ->
  gensimSummarize filename fraction w = (Raise (FileNotFoundError filename), w) /\
  pyteasSummarize filename title k w = (Raise (FileNotFoundError filename), w) /\
  createJSON filename w = (Raise (FileNotFoundError filename), w) /\
  pytrankSummarize filename w = (Raise (FileNotFoundError filename), w).
Proof.
  intros Hf. split; [|split; [|split]].
  - now apply gensimSummarize_missing.
  - now apply pyteasSummarize_missing.
  - now apply createJSON_missing.
  - now apply pytrankSummarize_missing.
Qed.

(** X9.  A failure inside the package.  When [summarize] (gensim) or
    [Summarize] (pyteaser) raises on the contents of the file, the call
    raises the same exception; the file has been read, which is the one
    trace left, and when [summarize] returns, [gensimSummarize] returns its
    result unchanged. *)
Theorem package_failure_passes_through w filename title k fraction text :
  files w !! filename = Some text ->
  (forall e, summarize text fraction = inl e ->
     gensimSummarize filename fraction w = (Raise e, log (EvRead filename) w)) /\
  (forall s, summarize text fraction = inr s ->
     gensimSummarize filename fraction w = (Ok s, log (EvRead filename) w)) /\
  (forall e, Summarize title text = inl e ->
     pyteasSummarize filename title k w = (Raise e, log (EvRead filename) w)).
Proof.
  intros Hf. split; [|split].
  - intros e He. rewrite (gensimSummarize_present w filename fraction text Hf).
    now rewrite He.
  - intros s Hs. rewrite (gensimSummarize_present w filename fraction text Hf).
    now rewrite Hs.
  - intros e He. eapply pyteasSummarize_raises; eassumption.
Qed.

(** X10.  The bounds of [pyteasSummarize].  Asked for at least as many
    sentences as [Summarize] returned, it joins them all, without error;
    asked for none, or for a negative count that reaches past the first
    sentence, or when [Summarize] returned none, it returns the empty
    string. *)
Theorem pyteasSummarize_at_the_bounds w filename title num_sents text summary :
  files w !! filename = Some text ->
  Summarize title text = inr summary ->
  (Z.of_nat (List.length summary) <= num_sents ->
     fst (pyteasSummarize filename title num_sents w)
     = Ok (join " " (map teaser_str summary))) /\
  (num_sents = 0 \/ num_sents <= - Z.of_nat (List.length summary) \/ summary = [] ->
     fst (pyteasSummarize filename title num_sents w) = Ok EmptyString).
Proof.
  intros Hf Hs.
  rewrite (pyteasSummarize_run w filename title num_sents text summary Hf Hs).
  cbn [fst]. split.
  - intros Hn. now rewrite slice_to_all.
  - intros [Hn|[Hn|Hn]].
    + rewrite slice_to_none by auto. reflexivity.
    + rewrite slice_to_none by auto. reflexivity.
    + subst summary. unfold slice_to.
      destruct (0 <=? num_sents); now rewrite take_nil.
Qed.

(** X11.  Asking [pyteasSummarize] for more sentences only lengthens the
    summary: for [0 <= m <= n] the string returned for [m] is the beginning
    of the string returned for [n]. *)
Theorem pyteasSummarize_grows w filename title m n text summary :
  files w !! filename = Some text ->
  Summarize title text = inr summary ->
  0 <= m <= n ->
  exists shorter longer,
    fst (pyteasSummarize filename title m w) = Ok shorter /\
    fst (pyteasSummarize filename title n w) = Ok longer /\
    begins shorter longer.
Proof.
  intros Hf Hs Hmn.
  rewrite !(pyteasSummarize_run w filename title _ text summary Hf Hs).
  eexists _, _. split; [reflexivity|]. split; [reflexivity|].
  unfold slice_to.
  destruct (Z.leb_spec 0 m); [|lia]. destruct (Z.leb_spec 0 n); [|lia].
  replace (Z.to_nat n) with (Z.to_nat m + (Z.to_nat n - Z.to_nat m))%nat by lia.
  rewrite <- take_take_drop, map_app. apply join_app_begins.
Qed.

(** X12.  Two inputs with the same stem collide.  [createJSON] names its
    output after the part of the name before the first dot, so a call on a
    second file of the same stem returns the same name and writes over what
    the first call stored: the file system is then the one the second call
    alone would have left. *)
Theorem createJSON_same_stem_collide w f1 f2 t1 t2 :
  files w !! f1 = Some t1 ->
  files w !! f2 = Some t2 ->
  before_first dot f1 = before_first dot f2 ->
  before_first dot f1 +:+ ".json" <> f2 ->
  let w1 := snd (createJSON f1 w) in
  fst (createJSON f2 w1) = fst (createJSON f1 w) /\
  files (snd (createJSON f2 w1)) = files (snd (createJSON f2 w)).
Proof.
  intros H1 H2 Hstem Hne.
  pose proof (createJSON_run w f1 t1 H1) as Hr1. cbv zeta in Hr1.
  pose proof (createJSON_run w f2 t2 H2) as Hr2. cbv zeta in Hr2.
  rewrite Hr1, Hr2. cbn zeta. cbn [snd fst].
  set (w1 := World _ _ _ _).
  assert (Hf1 : files w1 !! f2 = Some t2).
  { subst w1. cbn. now rewrite lookup_insert_ne. }
  pose proof (createJSON_run w1 f2 t2 Hf1) as Hr. cbv zeta in Hr.
  rewrite Hr. cbn [snd fst files]. rewrite Hstem. split; [reflexivity|].
  subst w1. cbn [files]. rewrite Hstem. apply insert_insert_eq.
Qed.

(** X13.  The name of the JSON file at the edges.  A name without a dot
    gets [.json] appended; otherwise everything from the first dot on is
    dropped, so [a.tar.gz] gives [a.json], and a name that begins with a
    dot (a hidden file, a path that starts with [./]) gives [.json]. *)
Theorem createJSON_names w filename text :
  files w !! filename = Some text ->
  (~ occurs dot filename ->
     fst (createJSON filename w) = Ok (filename +:+ ".json")) /\
  (forall stem rest, ~ occurs dot stem -> filename = stem +:+ String dot rest ->
     fst (createJSON filename w) = Ok (stem +:+ ".json")) /\
  (forall rest, filename = String dot rest ->
     fst (createJSON filename w) = Ok ".json").
Proof.
  intros Hf.
  pose proof (createJSON_run w filename text Hf) as Hr. cbv zeta in Hr.
  rewrite Hr. cbn [fst]. split; [|split].
  - intros Hfree. now rewrite before_first_whole.
  - intros stem rest Hfree ->. now rewrite before_first_append.
  - intros rest ->.
    change (String dot rest) with (EmptyString +:+ String dot rest).
    now rewrite before_first_append by (cbn; tauto).
Qed.

(** X14.  The stages of [pytrankSummarize] when every package call returns
    and the JSON file is not [o1.json].  The serialised text is parsed into
    [o1.json], one line per paragraph; the ranks of [o1.json] give the
    phrases of [o2.json]; the kernel of [o2.json] gives the sentences of
    [o3.json]; the result is the sentences made from [o3.json], in ascending
    order of their index, joined by single spaces.  The four files are all
    that the call changes. *)
Theorem pytrankSummarize_stages
    w filename text grafs rk phrases krn tops sents made :
  files w !! filename = Some text ->
  let jsonFile := before_first dot filename +:+ ".json" in
  let body := json_dumps (PDict [("id", PInt 707); ("text", PStr (re_sub_del dquote text))]) in
  jsonFile <> "o1.json" ->
  parse_doc_json_iter body = (grafs, None) ->
  let o1 := written (fun g => pretty_print_graf g +:+ newline) grafs in
  text_rank o1 = inr rk ->
  normalize_key_phrases o1 rk = (phrases, None) ->
  let o2 := written (fun rl => pretty_print_phrase rl +:+ newline) phrases in
  rank_kernel o2 = inr krn ->
  top_sentences krn o1 = (tops, None) ->
  let o3 := written (fun s => pretty_print_sentence s +:+ newline) tops in
  snd (limit_keyphrases o2 12) = None ->
  limit_sentences o3 50 = (sents, None) ->
  Forall2 (fun x s => make_sentence (fst x) = inr s) (sorted_by_key snd sents) made ->
  fst (pytrankSummarize filename w) = Ok (join " " made) /\
  files (snd (pytrankSummarize filename w))
  = <["o3.json" := o3]> (<["o2.json" := o2]> (<["o1.json" := o1]>
      (<[jsonFile := body]> (files w)))).
Proof.
  intros Hf jsonFile body Hne Hparse o1 Hrank Hnorm o2 Hkernel Htop o3 Hkeys Hsents Hmade.
  apply (pytrankSummarize_runs (files w) filename text grafs rk phrases krn tops sents made
           Hf Hne Hparse Hrank Hnorm Hkernel Htop Hkeys Hsents Hmade w eq_refl).
Qed.

(** X15.  Files left from an earlier run do not count.  The result of
    [pytrankSummarize] depends on the contents of the input file alone:
    [o1.json], [o2.json] and [o3.json] are emptied before they are read, so
    two worlds that hold the same input give the same result, and when the
    call returns, the same three stage files. *)
Theorem pytrankSummarize_ignores_stale_files w1 w2 filename :
  files w1 !! filename = files w2 !! filename ->
  fst (pytrankSummarize filename w1) = fst (pytrankSummarize filename w2) /\
  (forall summary, fst (pytrankSummarize filename w1) = Ok summary ->
     forall path, path ∈ stage_files ->
       files (snd (pytrankSummarize filename w1)) !! path
       = files (snd (pytrankSummarize filename w2)) !! path).
Proof.
  intros Heq. destruct (files w1 !! filename) as [text|] eqn:H1.
  - symmetry in Heq.
    destruct (pytrankSummarize_agree w1 w2 filename text text H1 Heq (or_introl eq_refl))
      as [Hr Hpost].
    split; [exact Hr|]. intros summary Hs path Hp. exact (Hpost summary Hs path Hp).
  - symmetry in Heq.
    rewrite (pytrankSummarize_missing w1 filename H1),
            (pytrankSummarize_missing w2 filename Heq).
    split; [reflexivity|]. intros summary Hs. discriminate.
Qed.

(** X16.  An input whose stem is [o1] is lost.  [createJSON] then writes
    the text to [o1.json], which [pytrankSummarize] empties before the first
    stage reads it: the result is the same whatever the input file holds. *)
Theorem pytrankSummarize_loses_input_named_o1 w1 w2 filename t1 t2 :
  before_first dot filename = "o1" ->
  files w1 !! filename = Some t1 ->
  files w2 !! filename = Some t2 ->
  fst (pytrankSummarize filename w1) = fst (pytrankSummarize filename w2).
Proof.
  intros Hstem H1 H2.
  apply (pytrankSummarize_agree w1 w2 filename t1 t2 H1 H2).
  right. now rewrite Hstem.
Qed.

(** X17.  A failure in the first stage.  When the parsing stops with an
    exception after some paragraphs, or when [text_rank] raises on the
    complete [o1.json], [pytrankSummarize] raises that exception.  The JSON
    file and [o1.json], with the lines written so far, stay behind; no other
    file is created or changed. *)
Theorem pytrankSummarize_fails_in_stage_one w filename text grafs stop e :
  files w !! filename = Some text ->
  let jsonFile := before_first dot filename +:+ ".json" in
  let body := json_dumps (PDict [("id", PInt 707); ("text", PStr (re_sub_del dquote text))]) in
  jsonFile <> "o1.json" ->
  parse_doc_json_iter body = (grafs, stop) ->
  let o1 := written (fun g => pretty_print_graf g +:+ newline) grafs in
  stop = Some e \/ (stop = None /\ text_rank o1 = inl e) ->
  fst (pytrankSummarize filename w) = Raise e /\
  files (snd (pytrankSummarize filename w))
  = <["o1.json" := o1]> (<[jsonFile := body]> (files w)).
Proof.
  intros Hf jsonFile body Hne Hparse o1 Hcase.
  cut (yields (pytrankSummarize filename) (files w) (Raise e)
         (<["o1.json" := o1]> (<[jsonFile := body]> (files w)))).
  { intros H. exact (H w eq_refl). }
  unfold pytrankSummarize.
  eapply yields_bind_Ok; [apply yields_createJSON; eassumption|]. cbv beta zeta.
  fold jsonFile body.
  eapply yields_bind_Ok; [apply yields_open_WR|]. cbv beta.
  eapply yields_bind_Ok.
  { apply (yields_read_path _ _ body).
    rewrite lookup_insert_ne by congruence. apply lookup_insert_eq. }
  cbv beta. destruct Hcase as [->|[-> Hrank]].
  - eapply yields_post; cycle 1.
    + apply yields_bind_Raise.
      eapply (yields_for_gen_Some _ _ (fun g => pretty_print_graf g +:+ newline) "o1.json");
        [ intros x fs0 old0 H0; now apply yields_write
        | apply lookup_insert_eq
        | exact Hparse ].
    + now rewrite insert_insert_eq, append_nil_l.
  - eapply yields_bind_Ok.
    { eapply (yields_for_gen_None _ _ (fun g => pretty_print_graf g +:+ newline) "o1.json");
        [ intros x fs0 old0 H0; now apply yields_write
        | apply lookup_insert_eq
        | exact Hparse ]. }
    cbv beta. rewrite insert_insert_eq, append_nil_l. fold o1.
    eapply yields_bind_Ok; [apply (yields_ret tt)|]. cbv beta.
    eapply yields_bind_Ok; [apply (yields_read_path _ _ o1); apply lookup_insert_eq|].
    cbv beta. apply yields_bind_Raise. apply yields_lift_inl. exact Hrank.
Qed.

(** X18.  The script prints the menu and nothing of what it computes.
    Whatever is typed and whatever the call does, the console holds, after
    the script, what it held before, the seven lines of the menu and, for a
    number other than 1, 2, 3 and 4, the line [Wrong choice]: no summary is
    ever printed. *)
Theorem main_prints_the_menu_only w :
  console (snd (main w)) = (console w ++ menu)%list \/
  console (snd (main w)) = (console w ++ menu ++ ["Wrong choice"])%list.
Proof.
  unfold main. rewrite bind_run, getAlgorithmChoice_cases.
  set (w' := World _ _ _ _).
  assert (Hw' : console w' = (console w ++ menu)%list) by reflexivity.
  destruct (keyboard w) as [|line rest]; [now left|].
  destruct (int line) as [e|c]; [now left|].
  destruct (c =? 1).
  { left. rewrite <- Hw'.
    apply (quiet_discard _ (reader_quiet _ (reader_sumySummarize _ _ _))). }
  destruct (c =? 2).
  { left. rewrite <- Hw'.
    apply (quiet_discard _ (reader_quiet _ (reader_gensimSummarize _ _))). }
  destruct (c =? 3).
  { left. rewrite <- Hw'.
    apply (quiet_discard _ (reader_quiet _ (reader_pyteasSummarize _ _ _))). }
  destruct (c =? 4).
  { left. rewrite <- Hw'. apply (quiet_discard _ (quiet_pytrankSummarize _)). }
  right. cbn. now rewrite <- app_assoc.
Qed.

(** X19.  Unless the number typed is 4, the script leaves every file as it
    was: that holds at the end of the input, for a line that is no number,
    for a wrong choice, and for the choices 1, 2 and 3 whether the call
    returns or raises. *)
Theorem main_writes_only_for_choice_4 w :
  (forall line rest, keyboard w = line :: rest -> int line <> inr 4) ->
  files (snd (main w)) = files w.
Proof.
  intros Hnot. unfold main. rewrite bind_run, getAlgorithmChoice_cases.
  set (w' := World _ _ _ _).
  assert (Hw' : files w' = files w) by reflexivity.
  destruct (keyboard w) as [|line rest]; [reflexivity|].
  specialize (Hnot line rest eq_refl).
  destruct (int line) as [e|c]; [reflexivity|].
  destruct (c =? 1).
  { rewrite <- Hw'. apply reader_files, reader_discard, reader_sumySummarize. }
  destruct (c =? 2).
  { rewrite <- Hw'. apply reader_files, reader_discard, reader_gensimSummarize. }
  destruct (c =? 3).
  { rewrite <- Hw'. apply reader_files, reader_discard, reader_pyteasSummarize. }
  destruct (Z.eqb_spec c 4) as [->|_]; [congruence|]. reflexivity.
Qed.

(** X20.  Bad input to the menu.  At the end of the input the script ends
    with [EOFError]; on a line that [int] rejects it ends with the exception
    of [int], the line being consumed.  In both cases the menu has been
    printed and no summarizer has run: the files are as they were. *)
Theorem main_on_bad_input w :
  (keyboard w = [] ->
     fst (main w) = Raise EOFError /\
     console (snd (main w)) = (console w ++ menu)%list /\
     files (snd (main w)) = files w) /\
  (forall line rest e, keyboard w = line :: rest -> int line = inl e ->
     fst (main w) = Raise e /\
     console (snd (main w)) = (console w ++ menu)%list /\
     keyboard (snd (main w)) = rest /\
     files (snd (main w)) = files w).
Proof.
  split.
  - intros Hk. unfold main. rewrite bind_run, getAlgorithmChoice_cases, Hk.
    repeat split.
  - intros line rest e Hk Hi.
    unfold main. rewrite bind_run, getAlgorithmChoice_cases, Hk, Hi.
    repeat split.
Qed.

End ReadingCalls.

(** X21.  Line 220 sorts the sentences by their index.  The sorted list
    holds the same pairs as the list that was yielded, in ascending order of
    the index, and the pairs of equal index keep the order in which they
    were yielded. *)
Theorem sent_iter_is_sorted_by_index {A} (sents : list (A * Z)) :
  sorted_by_key snd sents ≡ₚ sents /\
  ascending snd (sorted_by_key snd sents) /\
  forall idx, filter (fun x => snd x = idx) (sorted_by_key snd sents)
              = filter (fun x => snd x = idx) sents.
Proof.
  split; [apply sorted_by_key_perm|]. split; [apply sorted_by_key_sorted|].
  intros idx. apply sorted_by_key_filter.
Qed.

End Extras.

(** ** The further properties on sample inputs *)

Module ExtrasSample.
Import Reference.

(** A world in which the input is already a JSON file. *)
Definition notes : world :=
  World {[ "notes.json" := "say " +:+ quoted "hi" ]} [] [] [].

(** A world with two inputs of the same stem. *)
Definition drafts : world :=
  World (<[ "draft.md" := "Second." ]> {[ "draft.txt" := "First." ]}) [] [] [].

(** A world with names that have no dot, two dots, and a leading dot. *)
Definition names : world :=
  World (<[ "./notes.txt" := "c" ]> (<[ "a.tar.gz" := "b" ]> {[ "README" := "a" ]})) [] [] [].

(** The sample world after an earlier run left a stage file behind. *)
Definition stale : world :=
  World (<[ "o1.json" := "left over" ]> (files (world0 []))) [] [] [].

(** A world whose input has the stem [o1]. *)
Definition clash (text : string) : world :=
  World {[ "o1.txt" := text ]} [] [] [].

(** The serialised sample, which is one line. *)
Definition sample_json : string :=
  dumps (PDict [("id", PInt 707); ("text", PStr (re_sub_del dquote sample))]).

(** Packages of which one summarizer fails. *)
Definition text_rank_fails : Faulty.faults :=
  Faulty.Faults false false false false
    (fun a => match a with TextRank => true | _ => false end) false false false false.

Definition language_unknown : Faulty.faults :=
  Faulty.Faults true false false false (fun _ => false) false false false false.

Definition gensim_and_pyteaser_fail : Faulty.faults :=
  Faulty.Faults false false false false (fun _ => false) true true false false.

Definition parsing_stops : Faulty.faults :=
  Faulty.Faults false false false false (fun _ => false) false false true false.

Definition ranking_fails : Faulty.faults :=
  Faulty.Faults false false false false (fun _ => false) false false false true.

Ltac no_dot := cbn; unfold dot; intuition discriminate.

(** X2 on a JSON input. *)
Lemma createJSON_on_its_own_output :
  exists w',
    createJSON "notes.json" notes = (Ok "notes.json", w') /\
    files w' !! "notes.json"
      = Some (json_dumps (PDict [("id", PInt 707); ("text", PStr "say hi")])) /\
    forall path, path <> "notes.json" -> files w' !! path = files notes !! path.
Proof.
  apply (Extras.createJSON_writes_over_a_json_input (P := packages) notes "notes"
           ("say " +:+ quoted "hi")).
  - no_dot.
  - reflexivity.
Defined.

(** X3 on the sample. *)
Lemma createJSON_twice_on_sample :
  let w1 := snd (createJSON TEXT_FILE (world0 [])) in
  fst (createJSON TEXT_FILE w1) = fst (createJSON TEXT_FILE (world0 [])) /\
  files (snd (createJSON TEXT_FILE w1)) = files w1.
Proof.
  apply (Extras.createJSON_again (P := packages) (world0 []) TEXT_FILE sample).
  - reflexivity.
  - vm_compute. discriminate.
Defined.

(** X4 on the sample, which holds two double quotes. *)
Lemma createJSON_stored_text_on_sample :
  exists stored,
    files (snd (createJSON TEXT_FILE (world0 []))) !! (before_first dot TEXT_FILE +:+ ".json")
      = Some (json_dumps (PDict [("id", PInt 707); ("text", PStr stored)])) /\
    ~ occurs dquote stored /\
    (String.length stored <= String.length sample)%nat /\
    (~ occurs dquote sample -> stored = sample).
Proof.
  apply (Extras.createJSON_drops_quotes_only (P := packages) (world0 []) TEXT_FILE sample).
  reflexivity.
Defined.

(** X5 with an unknown language and a missing file: the tokenizer fails
    first. *)
Lemma sumySummarize_unknown_language :
  sumySummarize (P := Faulty.packages language_unknown) "missing.txt" LANGUAGE 2 (world0 [])
  = (Raise Faulty.LookupError, world0 []).
Proof.
  apply (proj1 (Extras.sumySummarize_fails_in_order (P := Faulty.packages language_unknown)
                  (world0 []) "missing.txt" LANGUAGE 2)).
  reflexivity.
Defined.

(** X6 when the third summarizer fails. *)
Lemma sumySummarize_third_fails :
  sumySummarize (P := Faulty.packages text_rank_fails) TEXT_FILE LANGUAGE 2 (world0 [])
  = (Raise (Foreign "TextRank"), log (EvRead TEXT_FILE) (world0 [])).
Proof.
  apply (Extras.sumySummarize_stops_at_first_failure (P := Faulty.packages text_rank_fails)
           (world0 []) TEXT_FILE LANGUAGE 2 sample LANGUAGE LANGUAGE
           ["the"; "a"; "on"] (sentences sample) TextRank (Foreign "TextRank")).
  - reflexivity.
  - reflexivity.
  - reflexivity.
  - reflexivity.
  - reflexivity.
  - reflexivity.
  - intros b Hb. destruct b; cbn in Hb; try lia; eexists; reflexivity.
Defined.

(** X7 on the sample. *)
Lemma sumySummarize_all_on_sample :
  exists text tok st sw doc (out : algorithm -> list string),
    files (world0 []) !! TEXT_FILE = Some text /\
    Tokenizer LANGUAGE = inr tok /\
    Stemmer LANGUAGE = inr st /\
    get_stop_words LANGUAGE = inr sw /\
    parse_document text tok = inr doc /\
    (forall a, summarizer_call a st (Some sw) doc 2 = inr (out a)) /\
    all_summaries (P := packages) (fun _ => leading 2) = all_summaries out /\
    log (EvRead TEXT_FILE) (world0 []) = log (EvRead TEXT_FILE) (world0 []).
Proof.
  apply (Extras.sumySummarize_returns_all_or_nothing (P := packages)
           (world0 []) TEXT_FILE LANGUAGE 2).
  reflexivity.
Defined.

(** X8 on a name that is not there. *)
Lemma calls_on_a_missing_file :
  gensimSummarize "missing.txt" tt (world0 [])
    = (Raise (FileNotFoundError "missing.txt"), world0 []) /\
  pyteasSummarize "missing.txt" "Topic Modelling" 2 (world0 [])
    = (Raise (FileNotFoundError "missing.txt"), world0 []) /\
  createJSON "missing.txt" (world0 []) = (Raise (FileNotFoundError "missing.txt"), world0 []) /\
  pytrankSummarize "missing.txt" (world0 [])
    = (Raise (FileNotFoundError "missing.txt"), world0 []).
Proof.
  apply (Extras.missing_input_file (P := packages) (world0 []) "missing.txt"
           "Topic Modelling" 2 tt).
  reflexivity.
Defined.

(** X9 with packages that raise. *)
Lemma calls_with_failing_packages :
  gensimSummarize (P := Faulty.packages gensim_and_pyteaser_fail) TEXT_FILE tt (world0 [])
    = (Raise Faulty.PackageError, log (EvRead TEXT_FILE) (world0 [])) /\
  pyteasSummarize (P := Faulty.packages gensim_and_pyteaser_fail)
      TEXT_FILE "Topic Modelling" 2 (world0 [])
    = (Raise Faulty.PackageError, log (EvRead TEXT_FILE) (world0 [])).
Proof.
  destruct (Extras.package_failure_passes_through
              (P := Faulty.packages gensim_and_pyteaser_fail)
              (world0 []) TEXT_FILE "Topic Modelling" 2 tt sample eq_refl)
    as (Hgensim & _ & Hpyteaser).
  split; [apply Hgensim | apply Hpyteaser]; reflexivity.
Defined.

(** X10 on the sample, which has three sentences. *)
Lemma pyteasSummarize_bounds_on_sample :
  fst (pyteasSummarize TEXT_FILE "Topic Modelling" 5 (world0 []))
    = Ok (join " " (sentences sample)) /\
  fst (pyteasSummarize TEXT_FILE "Topic Modelling" (-3) (world0 [])) = Ok EmptyString.
Proof.
  split.
  - apply (proj1 (Extras.pyteasSummarize_at_the_bounds (P := packages) (world0 []) TEXT_FILE
                    "Topic Modelling" 5 sample (sentences sample) eq_refl eq_refl)).
    vm_compute. discriminate.
  - apply (proj2 (Extras.pyteasSummarize_at_the_bounds (P := packages) (world0 []) TEXT_FILE
                    "Topic Modelling" (-3) sample (sentences sample) eq_refl eq_refl)).
    right. left. vm_compute. discriminate.
Defined.

(** X11 on the sample, from one sentence to two. *)
Lemma pyteasSummarize_grows_on_sample :
  exists shorter longer,
    fst (pyteasSummarize TEXT_FILE "Topic Modelling" 1 (world0 [])) = Ok shorter /\
    fst (pyteasSummarize TEXT_FILE "Topic Modelling" 2 (world0 [])) = Ok longer /\
    begins shorter longer.
Proof.
  apply (Extras.pyteasSummarize_grows (P := packages) (world0 []) TEXT_FILE
           "Topic Modelling" 1 2 sample (sentences sample)).
  - reflexivity.
  - reflexivity.
  - lia.
Defined.

(** X12 on two drafts. *)
Lemma createJSON_on_two_drafts :
  let w1 := snd (createJSON "draft.txt" drafts) in
  fst (createJSON "draft.md" w1) = fst (createJSON "draft.txt" drafts) /\
  files (snd (createJSON "draft.md" w1)) = files (snd (createJSON "draft.md" drafts)).
Proof.
  apply (Extras.createJSON_same_stem_collide (P := packages) drafts
           "draft.txt" "draft.md" "First." "Second.").
  - reflexivity.
  - reflexivity.
  - reflexivity.
  - vm_compute. discriminate.
Defined.

(** X13 on three names. *)
Lemma createJSON_on_odd_names :
  fst (createJSON "README" names) = Ok "README.json" /\
  fst (createJSON "a.tar.gz" names) = Ok "a.json" /\
  fst (createJSON "./notes.txt" names) = Ok ".json".
Proof.
  split; [|split].
  - apply (proj1 (Extras.createJSON_names (P := packages) names "README" "a" eq_refl)).
    no_dot.
  - apply (proj1 (proj2 (Extras.createJSON_names (P := packages) names "a.tar.gz" "b" eq_refl))
             "a" "tar.gz").
    + no_dot.
    + reflexivity.
  - apply (proj2 (proj2 (Extras.createJSON_names (P := packages) names "./notes.txt" "c" eq_refl))
             "/notes.txt").
    reflexivity.
Defined.

(** X14 on the sample: the serialised text is one line, which every stage
    of the instance passes on. *)
Lemma pytrankSummarize_stages_on_sample :
  fst (pytrankSummarize TEXT_FILE (world0 [])) = Ok sample_json /\
  files (snd (pytrankSummarize TEXT_FILE (world0 [])))
  = <["o3.json" := sample_json +:+ newline]>
      (<["o2.json" := sample_json +:+ newline]>
         (<["o1.json" := sample_json +:+ newline]>
            (<["sample_text.json" := sample_json]> (files (world0 []))))).
Proof.
  apply (Extras.pytrankSummarize_stages (P := packages) (world0 []) TEXT_FILE sample
           [sample_json] tt [sample_json] tt [sample_json] [(sample_json, 0)] [sample_json]).
  - reflexivity.
  - vm_compute. discriminate.
  - reflexivity.
  - reflexivity.
  - reflexivity.
  - reflexivity.
  - reflexivity.
  - reflexivity.
  - reflexivity.
  - repeat constructor.
Defined.

(** X15 on the sample, with and without a stage file left behind. *)
Lemma pytrankSummarize_on_stale_files :
  fst (pytrankSummarize TEXT_FILE (world0 [])) = fst (pytrankSummarize TEXT_FILE stale) /\
  (forall summary, fst (pytrankSummarize TEXT_FILE (world0 [])) = Ok summary ->
     forall path, path ∈ stage_files ->
       files (snd (pytrankSummarize TEXT_FILE (world0 []))) !! path
       = files (snd (pytrankSummarize TEXT_FILE stale)) !! path).
Proof.
  apply (Extras.pytrankSummarize_ignores_stale_files (P := packages) (world0 []) stale TEXT_FILE).
  reflexivity.
Defined.

(** X16 on two inputs named [o1.txt]. *)
Lemma pytrankSummarize_on_o1 :
  fst (pytrankSummarize "o1.txt" (clash "Dogs bark."))
  = fst (pytrankSummarize "o1.txt" (clash "Cats sleep. Birds sing.")).
Proof.
  apply (Extras.pytrankSummarize_loses_input_named_o1 (P := packages)
           (clash "Dogs bark.") (clash "Cats sleep. Birds sing.") "o1.txt"
           "Dogs bark." "Cats sleep. Birds sing.").
  - reflexivity.
  - reflexivity.
  - reflexivity.
Defined.

(** X17 on the sample: the parsing stops after the first line, or the
    ranking fails. *)
Lemma pytrankSummarize_first_stage_fails :
  (fst (pytrankSummarize (P := Faulty.packages parsing_stops) TEXT_FILE (world0 []))
     = Raise Faulty.PackageError /\
   files (snd (pytrankSummarize (P := Faulty.packages parsing_stops) TEXT_FILE (world0 [])))
     = <["o1.json" := sample_json +:+ newline]>
         (<["sample_text.json" := sample_json]> (files (world0 [])))) /\
  (fst (pytrankSummarize (P := Faulty.packages ranking_fails) TEXT_FILE (world0 []))
     = Raise Faulty.PackageError /\
   files (snd (pytrankSummarize (P := Faulty.packages ranking_fails) TEXT_FILE (world0 [])))
     = <["o1.json" := sample_json +:+ newline]>
         (<["sample_text.json" := sample_json]> (files (world0 [])))).
Proof.
  split.
  - apply (Extras.pytrankSummarize_fails_in_stage_one (P := Faulty.packages parsing_stops)
             (world0 []) TEXT_FILE sample [sample_json] (Some Faulty.PackageError)
             Faulty.PackageError).
    + reflexivity.
    + vm_compute. discriminate.
    + reflexivity.
    + left. reflexivity.
  - apply (Extras.pytrankSummarize_fails_in_stage_one (P := Faulty.packages ranking_fails)
             (world0 []) TEXT_FILE sample [sample_json] None Faulty.PackageError).
    + reflexivity.
    + vm_compute. discriminate.
    + reflexivity.
    + right. split; reflexivity.
Defined.

(** X19 with the choice 2 typed. *)
Lemma main_choice_2_keeps_files :
  files (snd (main (world0 ["2"]))) = files (world0 ["2"]).
Proof.
  apply (Extras.main_writes_only_for_choice_4 (P := packages) (world0 ["2"])).
  intros line rest Hk. injection Hk as <- <-. vm_compute. discriminate.
Defined.

(** X20 with nothing typed, and with a word typed. *)
Lemma main_without_a_number :
  (fst (main (world0 [])) = Raise EOFError /\
   console (snd (main (world0 []))) = menu /\
   files (snd (main (world0 []))) = files (world0 [])) /\
  (fst (main (world0 ["two"])) = Raise (ValueError "two") /\
   console (snd (main (world0 ["two"]))) = menu /\
   keyboard (snd (main (world0 ["two"]))) = [] /\
   files (snd (main (world0 ["two"]))) = files (world0 ["two"])).
Proof.
  split.
  - apply (proj1 (Extras.main_on_bad_input (P := packages) (world0 []))). reflexivity.
  - apply (proj2 (Extras.main_on_bad_input (P := packages) (world0 ["two"]))
             "two" [] (ValueError "two")); reflexivity.
Defined.

End ExtrasSample.
